(** * Merkle Patricia Trie (src/index.ts): embedding and properties

    The class [MerklePatriciaTrie] of src/index.ts is embedded function by
    function.  Conventions of the embedding:

    - A JavaScript string is a [string]; the code of a character
      ([charCodeAt]) is [nat_of_ascii], so keys range over the strings whose
      code units are below 256.
    - A nibble is held by the code as a one-character string over
      [0-9a-f] ([stringToNibbles] produces nothing else, and every other
      nibble array is a slice of one or the split of a stored run).  Here a
      nibble is the value of that digit, a [nat]; [parseInt (c, 16)] and
      [toString (16)] are then the identity, and the joined strings
      [keyEnd] and [sharedNibbles] are the lists of their digits.
    - A node is a value of [TrieNode]; the fourth constructor stands for an
      object whose [type] field is none of the three, which is what the
      [default] cases of the [switch] statements handle.
    - [throw] is the [Throw] constructor of [result].
    - The array [children] is a [list (option TrieNode)]; [null] and a hole
      are both [None].  Writing past the end extends the array, as
      JavaScript does. *)

From Stdlib Require Import String Ascii HexadecimalString DecimalString.
From Stdlib Require Import List Arith Lia Bool ZArith NArith Permutation.
Import ListNotations.
Local Open Scope string_scope.
Local Open Scope list_scope.
Local Open Scope nat_scope.

Set Implicit Arguments.

(** ** Results of operations that can throw *)

Inductive result (A : Type) : Type :=
| Ok (a : A)
| Throw (msg : string).

Arguments Ok {A} a.
Arguments Throw {A} msg.

Definition bind {A B : Type} (r : result A) (k : A -> result B) : result B :=
  match r with
  | Ok a => k a
  | Throw msg => Throw msg
  end.

Notation "x <- r ;; k" := (bind r (fun x => k))
  (at level 61, r at next level, right associativity).

(** ** Arrays *)

Section Arrays.
Context {A : Type}.

(** [arr[i]], with [undefined] (past the end, or a hole) as [None]. *)
Definition array_get (arr : list (option A)) (i : nat) : option A :=
  match nth_error arr i with
  | Some (Some x) => Some x
  | _ => None
  end.

(** [arr[i] = x]; past the end the array grows and the new cells before
    [i] are holes. *)
Fixpoint array_set (arr : list (option A)) (i : nat) (x : A)
  : list (option A) :=
  match arr, i with
  | [], 0 => [Some x]
  | [], S j => None :: array_set [] j x
  | _ :: rest, 0 => Some x :: rest
  | c :: rest, S j => c :: array_set rest j x
  end.

(** [k (arr[i])]: the continuation [k] receives the cell at [i].  Written
    as a recursion over the array with [k] fixed, so that a recursive
    function over nodes may be called on the cell. *)
Definition at_index {B : Type} (k : option A -> B)
  : list (option A) -> nat -> B :=
  fix go (arr : list (option A)) (i : nat) {struct arr} : B :=
    match arr with
    | [] => k None
    | c :: rest =>
        match i with
        | 0 => k c
        | S j => go rest j
        end
    end.
End Arrays.

(** ** Data model *)

Definition nibble := nat.

(** [NodeType] *)
Module NodeType.
Definition EXTENSION : nat := 0.
Definition EXTENSION_ODD : nat := 1.
Definition LEAF_EVEN : nat := 2.
Definition LEAF_ODD : nat := 3.
End NodeType.

(** [TrieNode] with its three interfaces [BranchNode], [ExtensionNode] and
    [LeafNode]; [OtherNode] is a node of any other [type]. *)
#[local] Unset Elimination Schemes.
Inductive TrieNode : Type :=
| BranchNode (children : list (option TrieNode)) (value : option string)
| ExtensionNode (prefix : nat) (sharedNibbles : list nibble)
    (nextNode : TrieNode)
| LeafNode (prefix : nat) (keyEnd : list nibble) (value : string)
| OtherNode.
#[local] Set Elimination Schemes.

(** ** Nibble codec *)

(** The value of a character of [0-9a-fA-F] (the test of the regular
    expression, and the digit after [toLowerCase]). *)
Definition hexDigit (c : ascii) : option nibble :=
  let n := nat_of_ascii c in
  if (48 <=? n) && (n <=? 57) then Some (n - 48)
  else if (97 <=? n) && (n <=? 102) then Some (n - 87)
  else if (65 <=? n) && (n <=? 70) then Some (n - 55)
  else None.

(** [/^[0-9a-fA-F]+$/.test (str)] *)
Definition isHexString (str : string) : bool :=
  match list_ascii_of_string str with
  | [] => false
  | cs => forallb (fun c => match hexDigit c with
                            | Some _ => true
                            | None => false
                            end) cs
  end.

Definition stringToNibbles (str : string) : list nibble :=
  if isHexString str then
    map (fun c => match hexDigit c with
                  | Some d => d
                  | None => 0
                  end) (list_ascii_of_string str)
  else
    flat_map (fun c =>
                let byte := nat_of_ascii c in
                [Nat.land (Nat.shiftr byte 4) 15; Nat.land byte 15])
             (list_ascii_of_string str).

(** ** Prefix tag encoder *)

(** [n.toString (16)] for a nibble *)
Definition nibbleChar (n : nibble) : string :=
  match String.get n "0123456789abcdef" with
  | Some c => String c EmptyString
  | None => EmptyString
  end.

(** [nibbles.join ('')] *)
Definition joinNibbles (nibbles : list nibble) : string :=
  String.concat "" (map nibbleChar nibbles).

Definition encodePrefix (nibbles : list nibble) (isLeaf : bool)
  : nat * string :=
  let isOdd := Nat.eqb (Nat.modulo (length nibbles) 2) 1 in
  let prefix :=
    if isLeaf then
      (if isOdd then NodeType.LEAF_ODD else NodeType.LEAF_EVEN)
    else
      (if isOdd then NodeType.EXTENSION_ODD else NodeType.EXTENSION) in
  let encodedNibbles := joinNibbles nibbles in
  let encodedNibbles :=
    if isOdd then ("0" ++ encodedNibbles)%string else encodedNibbles in
  (prefix, encodedNibbles).

(** ** Common-prefix matcher *)

Fixpoint findCommonPrefix (nibbles1 nibbles2 : list nibble) : list nibble :=
  match nibbles1, nibbles2 with
  | a :: rest1, b :: rest2 =>
      if Nat.eqb a b then a :: findCommonPrefix rest1 rest2 else []
  | _, _ => []
  end.

(** ** Node constructors *)

Definition createBranchNode (value : option string) : TrieNode :=
  BranchNode (repeat None 16) value.

Definition createExtensionNode (sharedNibbles : list nibble)
  (nextNode : TrieNode) : TrieNode :=
  ExtensionNode (fst (encodePrefix sharedNibbles false)) sharedNibbles
    nextNode.

Definition createLeafNode (keyEnd : list nibble) (value : string)
  : TrieNode :=
  LeafNode (fst (encodePrefix keyEnd true)) keyEnd value.

(** ** Insertion *)

(** [branchNode.children[index] = child], the assignment to a slot of a
    branch. *)
Definition setChild (branchNode : TrieNode) (index : nat) (child : TrieNode)
  : TrieNode :=
  match branchNode with
  | BranchNode children value =>
      BranchNode (array_set children index child) value
  | other => other
  end.

(** [insertIntoLeaf], on the fields of the leaf.  The new branch receives
    the two guarded assignments in the order of the source. *)
Definition insertIntoLeaf (keyEnd : list nibble) (leafValue : string)
  (remainingKey : list nibble) (value : string) : TrieNode :=
  let leafKeyNibbles := keyEnd in
  let commonPrefix := findCommonPrefix leafKeyNibbles remainingKey in
  if Nat.eqb (length commonPrefix) (length leafKeyNibbles)
     && Nat.eqb (length commonPrefix) (length remainingKey)
  then createLeafNode remainingKey value
  else
    let branchNode := createBranchNode None in
    let branchNode :=
      if length commonPrefix <? length leafKeyNibbles then
        let leafRemainingKey := skipn (length commonPrefix) leafKeyNibbles in
        let leafIndex := hd 0 leafRemainingKey in
        setChild branchNode leafIndex
          (createLeafNode (skipn 1 leafRemainingKey) leafValue)
      else branchNode in
    let branchNode :=
      if length commonPrefix <? length remainingKey then
        let newRemainingKey := skipn (length commonPrefix) remainingKey in
        let newIndex := hd 0 newRemainingKey in
        setChild branchNode newIndex
          (createLeafNode (skipn 1 newRemainingKey) value)
      else branchNode in
    if 0 <? length commonPrefix then
      createExtensionNode commonPrefix branchNode
    else branchNode.

Section InsertCases.
(** The recursive call [this.insertRecursive]. *)
Variable self :
  TrieNode -> list nibble -> string -> nat -> result TrieNode.

(** [insertIntoExtension], on the fields of the extension. *)
Definition insertIntoExtension (sharedNibbles : list nibble)
  (nextNode : TrieNode) (remainingKey : list nibble) (value : string)
  (depth : nat) : result TrieNode :=
  let extNibbles := sharedNibbles in
  let commonPrefix := findCommonPrefix extNibbles remainingKey in
  if Nat.eqb (length commonPrefix) (length extNibbles) then
    newNextNode <-
      self nextNode (skipn (length commonPrefix) remainingKey) value 0 ;;
    Ok (createExtensionNode extNibbles newNextNode)
  else
    let branchNode := createBranchNode None in
    let extRemainingKey := skipn (length commonPrefix) extNibbles in
    let newRemainingKey := skipn (length commonPrefix) remainingKey in
    let branchNode :=
      if 0 <? length extRemainingKey then
        let extIndex := hd 0 extRemainingKey in
        if 1 <? length extRemainingKey then
          setChild branchNode extIndex
            (createExtensionNode (skipn 1 extRemainingKey) nextNode)
        else
          setChild branchNode extIndex nextNode
      else branchNode in
    let branchNode :=
      if 0 <? length newRemainingKey then
        let newIndex := hd 0 newRemainingKey in
        setChild branchNode newIndex (createLeafNode newRemainingKey value)
      else branchNode in
    if 0 <? length commonPrefix then
      Ok (createExtensionNode commonPrefix branchNode)
    else Ok branchNode.

(** [insertIntoBranch], on the fields of the branch.  The source updates
    the branch in place and returns it; here the updated branch is
    returned. *)
Definition insertIntoBranch (children : list (option TrieNode))
  (branchValue : option string) (remainingKey : list nibble)
  (value : string) : result TrieNode :=
  if Nat.eqb (length remainingKey) 0 then
    Ok (BranchNode children (Some value))
  else
    let index := hd 0 remainingKey in
    let restKey := skipn 1 remainingKey in
    newChild <-
      at_index (fun child =>
                  match child with
                  | None => Ok (createLeafNode remainingKey value)
                  | Some c => self c restKey value 0
                  end) children index ;;
    Ok (BranchNode (array_set children index newChild) branchValue).
End InsertCases.

Fixpoint insertRecursive (node : TrieNode) (keyNibbles : list nibble)
  (value : string) (depth : nat) {struct node} : result TrieNode :=
  let remainingKey := skipn depth keyNibbles in
  match node with
  | LeafNode _ keyEnd leafValue =>
      Ok (insertIntoLeaf keyEnd leafValue remainingKey value)
  | ExtensionNode _ sharedNibbles nextNode =>
      insertIntoExtension insertRecursive sharedNibbles nextNode
        remainingKey value depth
  | BranchNode children branchValue =>
      insertIntoBranch insertRecursive children branchValue remainingKey
        value
  | OtherNode => Throw "Tipo de nodo desconocido"
  end.

(** ** Lookup *)

Definition arraysEqual (arr1 arr2 : list nibble) : bool :=
  if negb (Nat.eqb (length arr1) (length arr2)) then false
  else forallb (fun p => Nat.eqb (fst p) (snd p)) (combine arr1 arr2).

(** [findBranchIndex]; its [depth] may be negative. *)
Definition findBranchIndex (keyNibbles : list nibble) (depth : Z)
  : option nat :=
  if (depth <? 0)%Z || (depth >=? Z.of_nat (length keyNibbles))%Z then None
  else nth_error keyNibbles (Z.to_nat depth).

Fixpoint getRecursive (node : TrieNode) (keyNibbles : list nibble)
  (depth : nat) {struct node} : option string :=
  let remainingKey := skipn depth keyNibbles in
  match node with
  | LeafNode _ keyEnd value =>
      let leafKeyNibbles := keyEnd in
      let keyToCompare :=
        if length remainingKey <? length leafKeyNibbles then
          match findBranchIndex keyNibbles (Z.of_nat depth - 1) with
          | Some branchIndex => branchIndex :: remainingKey
          | None => remainingKey
          end
        else remainingKey in
      let isEqual := arraysEqual leafKeyNibbles keyToCompare in
      if isEqual then Some value else None
  | ExtensionNode _ sharedNibbles nextNode =>
      let extNibbles := sharedNibbles in
      if (length remainingKey <? length extNibbles)
         || negb (arraysEqual extNibbles
                    (firstn (length extNibbles) remainingKey))
      then None
      else getRecursive nextNode keyNibbles (depth + length extNibbles)
  | BranchNode children value =>
      if Nat.eqb (length remainingKey) 0 then value
      else
        let index := hd 0 remainingKey in
        at_index (fun child =>
                    match child with
                    | Some c => getRecursive c keyNibbles (depth + 1)
                    | None => None
                    end) children index
  | OtherNode => None
  end.

(** ** Keccak-256

    [keccak256] is imported from the package js-sha3.  It is the Keccak
    sponge of rate 1088 and capacity 512 with the padding byte 0x01, applied
    to the UTF-8 encoding of the string, and printed as 64 lower-case
    hexadecimal digits. *)

Module Keccak.
Local Open Scope Z_scope.

Definition mask64 : Z := 2 ^ 64 - 1.

Definition rotl64 (x : Z) (n : Z) : Z :=
  Z.land (Z.lor (Z.shiftl x n) (Z.shiftr x (64 - n))) mask64.

Definition RC : list Z :=
  [ 0x0000000000000001; 0x0000000000008082; 0x800000000000808A;
    0x8000000080008000; 0x000000000000808B; 0x0000000080000001;
    0x8000000080008081; 0x8000000000008009; 0x000000000000008A;
    0x0000000000000088; 0x0000000080008009; 0x000000008000000A;
    0x000000008000808B; 0x800000000000008B; 0x8000000000008089;
    0x8000000000008003; 0x8000000000008002; 0x8000000000000080;
    0x000000000000800A; 0x800000008000000A; 0x8000000080008081;
    0x8000000000008080; 0x0000000080000001; 0x8000000080008008 ].

(** Rotation offsets, at index [x + 5 * y]. *)
Definition rho_offsets : list Z :=
  [ 0; 1; 62; 28; 27;
    36; 44; 6; 55; 20;
    3; 10; 43; 25; 39;
    41; 45; 15; 21; 8;
    18; 2; 61; 56; 14 ].

Definition lane (st : list Z) (x y : nat) : Z :=
  nth (x mod 5 + 5 * (y mod 5))%nat st 0.

Definition coords : list (nat * nat) :=
  flat_map (fun y => map (fun x => (x, y)) (seq 0 5)) (seq 0 5).

Definition theta (st : list Z) : list Z :=
  let C := fun x =>
    Z.lxor (lane st x 0)
      (Z.lxor (lane st x 1)
         (Z.lxor (lane st x 2) (Z.lxor (lane st x 3) (lane st x 4)))) in
  let D := fun x => Z.lxor (C (x + 4)%nat) (rotl64 (C (x + 1)%nat) 1) in
  map (fun '(x, y) => Z.lxor (lane st x y) (D x)) coords.

(** The lane written at [(X, Y)] comes from [(X + 3 Y, X)]. *)
Definition rho_pi (st : list Z) : list Z :=
  map (fun '(X, Y) =>
         let x := ((X + 3 * Y) mod 5)%nat in
         let y := X in
         rotl64 (lane st x y) (nth (x + 5 * y)%nat rho_offsets 0)) coords.

Definition chi (st : list Z) : list Z :=
  map (fun '(x, y) =>
         Z.lxor (lane st x y)
           (Z.land (Z.lxor (lane st (x + 1) y) mask64)
              (lane st (x + 2) y))) coords.

Definition iota (rc : Z) (st : list Z) : list Z :=
  match st with
  | [] => []
  | a :: rest => Z.lxor a rc :: rest
  end.

Definition round (st : list Z) (rc : Z) : list Z :=
  iota rc (chi (rho_pi (theta st))).

Definition keccak_f (st : list Z) : list Z := fold_left round RC st.

(** UTF-8 bytes of a string (code units below 256 take one or two
    bytes). *)
Definition utf8 (s : string) : list Z :=
  flat_map (fun c =>
              let code := Z.of_nat (nat_of_ascii c) in
              if code <? 128 then [code]
              else [Z.lor 192 (Z.shiftr code 6);
                    Z.lor 128 (Z.land code 63)])
           (list_ascii_of_string s).

Definition rate : nat := 136.

(** Padding to a multiple of the rate: 0x01, zeros, and 0x80 on the last
    byte. *)
Definition pad (msg : list Z) : list Z :=
  let q := (rate - (length msg mod rate))%nat in
  if Nat.eqb q 1 then msg ++ [129]
  else msg ++ [1] ++ repeat 0 (q - 2) ++ [128].

(** A lane from its eight bytes, least significant first. *)
Fixpoint lane_of_bytes (bs : list Z) : Z :=
  match bs with
  | [] => 0
  | b :: rest => b + 256 * lane_of_bytes rest
  end.

Fixpoint lanes_of_bytes (n : nat) (bs : list Z) : list Z :=
  match n with
  | O => []
  | S n' => lane_of_bytes (firstn 8 bs) :: lanes_of_bytes n' (skipn 8 bs)
  end.

(** Absorbs the padded message, one block of [rate] bytes at a time. *)
Fixpoint absorb (blocks : nat) (bs : list Z) (st : list Z) : list Z :=
  match blocks with
  | O => st
  | S n =>
      let block := lanes_of_bytes 17 (firstn rate bs) ++ repeat 0 8 in
      let st' := keccak_f (map (fun p => Z.lxor (fst p) (snd p))
                             (combine st block)) in
      absorb n (skipn rate bs) st'
  end.

Definition hexChar (n : Z) : ascii :=
  match String.get (Z.to_nat n) "0123456789abcdef" with
  | Some c => c
  | None => "0"%char
  end.

Definition hexByte (b : Z) : string :=
  String (hexChar (b / 16)) (String (hexChar (b mod 16)) EmptyString).

Definition lane_bytes (l : Z) : list Z :=
  map (fun i => Z.land (Z.shiftr l (8 * Z.of_nat i)) 255) (seq 0 8).

Definition keccak256 (message : string) : string :=
  let bs := pad (utf8 message) in
  let st := absorb (length bs / rate)%nat bs (repeat 0 25) in
  String.concat "" (map hexByte (flat_map lane_bytes (firstn 4 st))).
End Keccak.

Definition keccak256 : string -> string := Keccak.keccak256.

(** ** Hash computation *)

(** A number inside a template string. *)
Definition numberToString (n : nat) : string :=
  NilEmpty.string_of_uint (Nat.to_uint n).

Fixpoint calculateNodeHash (node : TrieNode) : string :=
  let nodeData :=
    match node with
    | BranchNode children value =>
        let childHashes :=
          map (fun child =>
                 match child with
                 | Some c => calculateNodeHash c
                 | None => ""
                 end) children in
        (String.concat "" childHashes
         ++ match value with
            | Some v => v
            | None => ""
            end)%string
    | ExtensionNode prefix sharedNibbles nextNode =>
        (numberToString prefix ++ joinNibbles sharedNibbles
         ++ calculateNodeHash nextNode)%string
    | LeafNode prefix keyEnd value =>
        (numberToString prefix ++ joinNibbles keyEnd ++ value)%string
    | OtherNode => ""
    end in
  keccak256 nodeData.

(** The children of a branch that are present, in slot order. *)
Definition presentChildren (children : list (option TrieNode))
  : list TrieNode :=
  flat_map (fun child => match child with
                         | Some c => [c]
                         | None => []
                         end) children.

(** ** The class and its public methods *)

Record MerklePatriciaTrie : Type := { root : option TrieNode }.

(** [new MerklePatriciaTrie ()] *)
Definition newTrie : MerklePatriciaTrie := {| root := None |}.

(** [insert]: the trie after the call, or the exception. *)
Definition insert (key value : string) (this : MerklePatriciaTrie)
  : result MerklePatriciaTrie :=
  let keyNibbles := stringToNibbles key in
  match root this with
  | None => Ok {| root := Some (createLeafNode keyNibbles value) |}
  | Some r =>
      newRoot <- insertRecursive r keyNibbles value 0 ;;
      Ok {| root := Some newRoot |}
  end.

Definition get (key : string) (this : MerklePatriciaTrie) : option string :=
  match root this with
  | None => None
  | Some r =>
      let keyNibbles := stringToNibbles key in
      getRecursive r keyNibbles 0
  end.

Definition getRootHash (this : MerklePatriciaTrie) : string :=
  match root this with
  | None => keccak256 ""
  | Some r => calculateNodeHash r
  end.

(** A sequence of calls of [insert], first pair first, on a trie. *)
Fixpoint insertAll (pairs : list (string * string))
  (this : MerklePatriciaTrie) : result MerklePatriciaTrie :=
  match pairs with
  | [] => Ok this
  | (key, value) :: rest =>
      this' <- insert key value this ;; insertAll rest this'
  end.

(** The tries that calls of [insert] produce from a new trie. *)
Inductive reachable : MerklePatriciaTrie -> Prop :=
| reachable_new : reachable newTrie
| reachable_insert (key value : string) (this this' : MerklePatriciaTrie) :
    reachable this -> insert key value this = Ok this' -> reachable this'.

(** ** Recursion depth

    [getRecursiveCounted] and [insertRecursiveCounted] are [getRecursive]
    and [insertRecursive] returning, next to their result, the number of
    calls of themselves that they made below the first.  Each calls itself at
    most once per activation, so this number is the depth of the
    recursion.  The cases without a recursive call give the result of the
    function itself. *)

Fixpoint getRecursiveCounted (node : TrieNode) (keyNibbles : list nibble)
  (depth : nat) {struct node} : option string * nat :=
  let remainingKey := skipn depth keyNibbles in
  match node with
  | ExtensionNode _ sharedNibbles nextNode =>
      let extNibbles := sharedNibbles in
      if (length remainingKey <? length extNibbles)
         || negb (arraysEqual extNibbles
                    (firstn (length extNibbles) remainingKey))
      then (None, 0)
      else
        let (found, calls) :=
          getRecursiveCounted nextNode keyNibbles
            (depth + length extNibbles) in
        (found, S calls)
  | BranchNode children value =>
      if Nat.eqb (length remainingKey) 0 then (value, 0)
      else
        let index := hd 0 remainingKey in
        at_index (fun child =>
                    match child with
                    | Some c =>
                        let (found, calls) :=
                          getRecursiveCounted c keyNibbles (depth + 1) in
                        (found, S calls)
                    | None => (None, 0)
                    end) children index
  | LeafNode _ _ _ | OtherNode => (getRecursive node keyNibbles depth, 0)
  end.

Fixpoint insertRecursiveCounted (node : TrieNode)
  (keyNibbles : list nibble) (value : string) (depth : nat) {struct node}
  : result TrieNode * nat :=
  let remainingKey := skipn depth keyNibbles in
  match node with
  | ExtensionNode _ sharedNibbles nextNode =>
      let extNibbles := sharedNibbles in
      let commonPrefix := findCommonPrefix extNibbles remainingKey in
      if Nat.eqb (length commonPrefix) (length extNibbles) then
        let (newNext, calls) :=
          insertRecursiveCounted nextNode
            (skipn (length commonPrefix) remainingKey) value 0 in
        (newNextNode <- newNext ;;
         Ok (createExtensionNode extNibbles newNextNode), S calls)
      else (insertRecursive node keyNibbles value depth, 0)
  | BranchNode children branchValue =>
      if Nat.eqb (length remainingKey) 0 then
        (insertRecursive node keyNibbles value depth, 0)
      else
        let index := hd 0 remainingKey in
        let restKey := skipn 1 remainingKey in
        at_index (fun child =>
                    match child with
                    | None => (insertRecursive node keyNibbles value depth, 0)
                    | Some c =>
                        let (inserted, calls) :=
                          insertRecursiveCounted c restKey value 0 in
                        (newChild <- inserted ;;
                         Ok (BranchNode (array_set children index newChild)
                               branchValue), S calls)
                    end) children index
  | LeafNode _ _ _ | OtherNode =>
      (insertRecursive node keyNibbles value depth, 0)
  end.

(** [get] and [insert] with the count of their recursive calls. *)
Definition getCounted (key : string) (this : MerklePatriciaTrie)
  : option string * nat :=
  match root this with
  | None => (None, 0)
  | Some r =>
      let keyNibbles := stringToNibbles key in
      getRecursiveCounted r keyNibbles 0
  end.

Definition insertCounted (key value : string) (this : MerklePatriciaTrie)
  : result MerklePatriciaTrie * nat :=
  let keyNibbles := stringToNibbles key in
  match root this with
  | None => (Ok {| root := Some (createLeafNode keyNibbles value) |}, 0)
  | Some r =>
      let (inserted, calls) := insertRecursiveCounted r keyNibbles value 0 in
      (newRoot <- inserted ;; Ok {| root := Some newRoot |}, calls)
  end.

(** The depth of the recursion of [get] and of [insert]. *)
Definition getDepth (key : string) (this : MerklePatriciaTrie) : nat :=
  snd (getCounted key this).

Definition insertDepth (key value : string) (this : MerklePatriciaTrie)
  : nat :=
  snd (insertCounted key value this).

(** ** Well-formed nodes

    Every node is a branch, an extension or a leaf, and no extension has an
    empty run. *)

Fixpoint wellFormed (node : TrieNode) : bool :=
  match node with
  | BranchNode children _ =>
      forallb (fun child =>
                 match child with
                 | Some c => wellFormed c
                 | None => true
                 end) children
  | ExtensionNode _ sharedNibbles nextNode =>
      negb (Nat.eqb (length sharedNibbles) 0) && wellFormed nextNode
  | LeafNode _ _ _ => true
  | OtherNode => false
  end.

(** A slot of a branch holds nothing or a well-formed node. *)
Definition childWellFormed (child : option TrieNode) : bool :=
  match child with
  | Some c => wellFormed c
  | None => true
  end.

Definition wellFormedTrie (this : MerklePatriciaTrie) : bool :=
  match root this with
  | None => true
  | Some r => wellFormed r
  end.

(** ** Induction over nodes *)

Section TrieNodeInd.
Variable P : TrieNode -> Prop.

Definition childHolds (child : option TrieNode) : Prop :=
  match child with
  | Some c => P c
  | None => True
  end.

Hypothesis branch_case : forall children value,
    Forall childHolds children -> P (BranchNode children value).
Hypothesis extension_case : forall prefix sharedNibbles nextNode,
    P nextNode -> P (ExtensionNode prefix sharedNibbles nextNode).
Hypothesis leaf_case : forall prefix keyEnd value,
    P (LeafNode prefix keyEnd value).
Hypothesis other_case : P OtherNode.

Fixpoint TrieNode_ind (node : TrieNode) : P node :=
  match node with
  | BranchNode children value =>
      branch_case value
        ((fix all (cs : list (option TrieNode)) : Forall childHolds cs :=
            match cs with
            | [] => Forall_nil _
            | c :: rest =>
                Forall_cons c
                  (match c return childHolds c with
                   | Some n => TrieNode_ind n
                   | None => I
                   end) (all rest)
            end) children)
  | ExtensionNode prefix sharedNibbles nextNode =>
      extension_case prefix sharedNibbles (TrieNode_ind nextNode)
  | LeafNode prefix keyEnd value => leaf_case prefix keyEnd value
  | OtherNode => other_case
  end.
End TrieNodeInd.

(** ** Tries used as examples *)

(** The trie after [insert ('a71355', '45.0ETH')] and
    [insert ('a77d337', '1.00WEI')] on a new trie. *)
Definition twoAccounts : MerklePatriciaTrie :=
  {| root := Some
       (ExtensionNode 0 [10; 7]
          (BranchNode
             (array_set
                (array_set (repeat None 16) 1
                   (LeafNode 3 [3; 5; 5] "45.0ETH"))
                7 (LeafNode 2 [13; 3; 3; 7] "1.00WEI")) None)) |}.

(** The trie that both orders of inserting 'a7' and 'a71355' produce: the
    branch has no value and a single child. *)
Definition prefixPair : MerklePatriciaTrie :=
  {| root := Some
       (ExtensionNode 0 [10; 7]
          (BranchNode
             (array_set (repeat None 16) 1 (LeafNode 3 [3; 5; 5] "45.0ETH"))
             None)) |}.

(** The trie after inserting '12', '34' and '55'. *)
Definition beforeOverwrite : MerklePatriciaTrie :=
  {| root := Some
       (BranchNode
          (array_set
             (array_set
                (array_set (repeat None 16) 1 (LeafNode 3 [2] "a"))
                3 (LeafNode 3 [4] "b"))
             5 (LeafNode 2 [5; 5] "v1")) None) |}.

(** The trie after inserting '55' a second time. *)
Definition afterOverwrite : MerklePatriciaTrie :=
  {| root := Some
       (BranchNode
          (array_set
             (array_set
                (array_set (repeat None 16) 1 (LeafNode 3 [2] "a"))
                3 (LeafNode 3 [4] "b"))
             5 (ExtensionNode 1 [5]
                  (BranchNode
                     (array_set (repeat None 16) 5 (LeafNode 2 [] "v1"))
                     None))) None) |}.

(** The trie after inserting '12', '34', '35' in this order. *)
Definition orderA : MerklePatriciaTrie :=
  {| root := Some
       (BranchNode
          (array_set
             (array_set (repeat None 16) 1 (LeafNode 3 [2] "a"))
             3 (BranchNode
                  (array_set
                     (array_set (repeat None 16) 4 (LeafNode 2 [] "b"))
                     5 (LeafNode 2 [] "c")) None)) None) |}.

(** The trie after inserting '34', '35', '12' in this order. *)
Definition orderB : MerklePatriciaTrie :=
  {| root := Some
       (BranchNode
          (array_set
             (array_set (repeat None 16) 1 (LeafNode 2 [1; 2] "a"))
             3 (BranchNode
                  (array_set
                     (array_set (repeat None 16) 4 (LeafNode 2 [] "b"))
                     5 (LeafNode 2 [] "c")) None)) None) |}.

(** The trie after inserting '0a' -> 'x' and '1b' -> 'y'. *)
Definition slots01 : MerklePatriciaTrie :=
  {| root := Some
       (BranchNode
          (array_set (array_set (repeat None 16) 0 (LeafNode 3 [10] "x"))
             1 (LeafNode 3 [11] "y")) None) |}.

(** The trie after inserting '2a' -> 'x' and '3b' -> 'y'. *)
Definition slots23 : MerklePatriciaTrie :=
  {| root := Some
       (BranchNode
          (array_set (array_set (repeat None 16) 2 (LeafNode 3 [10] "x"))
             3 (LeafNode 3 [11] "y")) None) |}.

(** ** Where insertion writes the value

    [insertRecursive] writes the new value in four places: the replaced
    leaf and the new leaf of [insertIntoLeaf], the new leaf of a split in
    [insertIntoExtension], and the value or the new leaf of
    [insertIntoBranch].  [insertStoresValue] follows the same path with the
    same tests and tells whether one of them is reached. *)

Fixpoint insertStoresValue (node : TrieNode) (remainingKey : list nibble)
  {struct node} : bool :=
  match node with
  | LeafNode _ keyEnd _ =>
      let commonPrefix := findCommonPrefix keyEnd remainingKey in
      Nat.eqb (length commonPrefix) (length keyEnd)
      && Nat.eqb (length commonPrefix) (length remainingKey)
      || (length commonPrefix <? length remainingKey)
  | ExtensionNode _ sharedNibbles nextNode =>
      let commonPrefix := findCommonPrefix sharedNibbles remainingKey in
      if Nat.eqb (length commonPrefix) (length sharedNibbles) then
        insertStoresValue nextNode
          (skipn (length commonPrefix) remainingKey)
      else 0 <? length (skipn (length commonPrefix) remainingKey)
  | BranchNode children _ =>
      if Nat.eqb (length remainingKey) 0 then true
      else
        at_index (fun child =>
                    match child with
                    | None => true
                    | Some c => insertStoresValue c (skipn 1 remainingKey)
                    end) children (hd 0 remainingKey)
  | OtherNode => false
  end.

(** [insertStoresValue] for [insert]: on a new trie the value goes into
    the root leaf. *)
Definition insertStores (key : string) (this : MerklePatriciaTrie) : bool :=
  match root this with
  | None => true
  | Some r => insertStoresValue r (stringToNibbles key)
  end.

(** ** Shape of the nodes that insertion builds *)

Definition isBranch (node : TrieNode) : bool :=
  match node with
  | BranchNode _ _ => true
  | _ => false
  end.

Definition isPresent (child : option TrieNode) : bool :=
  match child with
  | Some _ => true
  | None => false
  end.

(** Every branch has 16 slots, one of them occupied; every extension has a
    non-empty run, the tag of that run, and a branch below it; every leaf
    has the tag of its suffix; every nibble is below 16. *)
Fixpoint structured (node : TrieNode) : bool :=
  match node with
  | BranchNode children _ =>
      Nat.eqb (length children) 16
      && existsb isPresent children
      && forallb (fun child =>
                    match child with
                    | Some c => structured c
                    | None => true
                    end) children
  | ExtensionNode prefix sharedNibbles nextNode =>
      negb (Nat.eqb (length sharedNibbles) 0)
      && forallb (fun n => n <? 16) sharedNibbles
      && Nat.eqb prefix (fst (encodePrefix sharedNibbles false))
      && isBranch nextNode
      && structured nextNode
  | LeafNode prefix keyEnd _ =>
      forallb (fun n => n <? 16) keyEnd
      && Nat.eqb prefix (fst (encodePrefix keyEnd true))
  | OtherNode => false
  end.

Definition childStructured (child : option TrieNode) : bool :=
  match child with
  | Some c => structured c
  | None => true
  end.

(** Every nibble of a run is below 16. *)
Definition inRange (nibbles : list nibble) : bool :=
  forallb (fun n => n <? 16) nibbles.

(** The slots of a branch under construction: 16 cells, each empty or
    holding a structured node. *)
Definition slots (children : list (option TrieNode)) : Prop :=
  length children = 16 /\ forallb childStructured children = true.

Definition structuredTrie (this : MerklePatriciaTrie) : bool :=
  match root this with
  | None => true
  | Some r => structured r
  end.

(** ** Printing the trie

    [printTrie] and [printNode] write with [console.log]; here they return
    the lines written, in order. *)

(** [n.toString (16)] *)
Definition toString16 (n : nat) : string :=
  HexadecimalString.NilZero.string_of_uint (Nat.to_hex_uint n).

(** ['  '.repeat (depth)] *)
Fixpoint indentOf (depth : nat) : string :=
  match depth with
  | 0 => ""
  | S d => ("  " ++ indentOf d)%string
  end.

(** [if (branchNode.value)]: neither [null] nor the empty string. *)
Definition truthy (value : option string) : bool :=
  match value with
  | Some (String _ _) => true
  | _ => false
  end.

Fixpoint printNode (node : TrieNode) (prefix : string) (depth : nat)
  {struct node} : list string :=
  let indent := indentOf depth in
  match node with
  | BranchNode children value =>
      [(indent ++ "Branch Node:")%string]
      ++ (if truthy value then
            [(indent ++ "  Value: "
              ++ match value with
                 | Some v => v
                 | None => ""
                 end)%string]
          else [])
      ++ (fix forEach (cs : list (option TrieNode)) (index : nat)
            {struct cs} : list string :=
            match cs with
            | [] => []
            | child :: rest =>
                match child with
                | Some c =>
                    [(indent ++ "  [" ++ toString16 index ++ "]:")%string]
                    ++ printNode c (prefix ++ toString16 index)%string
                         (depth + 1)
                | None => []
                end ++ forEach rest (S index)
            end) children 0
  | ExtensionNode tag sharedNibbles nextNode =>
      [(indent ++ "Extension Node:")%string;
       (indent ++ "  Prefix: " ++ numberToString tag)%string;
       (indent ++ "  Shared Nibbles: " ++ joinNibbles sharedNibbles)%string;
       (indent ++ "  Next Node:")%string]
      ++ printNode nextNode prefix (depth + 1)
  | LeafNode tag keyEnd value =>
      [(indent ++ "Leaf Node:")%string;
       (indent ++ "  Prefix: " ++ numberToString tag)%string;
       (indent ++ "  Key End: " ++ joinNibbles keyEnd)%string;
       (indent ++ "  Value: " ++ value)%string]
  | OtherNode => []
  end.

(** The word of the message for an empty trie has the letter of code 237
    (i with acute accent) before its last letter. *)
Definition printTrie (this : MerklePatriciaTrie) : list string :=
  match root this with
  | None => [("Trie vac" ++ String (ascii_of_nat 237) "o")%string]
  | Some r => printNode r "" 0
  end.


(** * Properties *)

(** ** Test vectors of Keccak-256 and the trie of the README *)

Example keccak256_empty :
  keccak256 "" =
  "c5d2460186f7233c927e7db2dcc703c0e500b653ca82273b7bfad8045d85a470".
Proof. vm_compute. reflexivity. Qed.

Example keccak256_fox :
  keccak256 "The quick brown fox jumps over the lazy dog" =
  "4d741b6f1eb29cb2a9b9911c82f56fa8d73b04959d3d9d222895df6c0b28aa15".
Proof. vm_compute. reflexivity. Qed.

Example keccak256_abc :
  keccak256 "abc" =
  "4e03657aea45a94fc7d47ba826c8d667c0d1e6e33a64a036ec44f58fa12d6c45".
Proof. vm_compute. reflexivity. Qed.

Example readme_trie :
  insertAll [("a71355", "45.0ETH"); ("a77d337", "1.00WEI");
             ("a7f9365", "1.1ETH"); ("a77d397", "0.12ETH")] newTrie
  = Ok {| root := Some
      (ExtensionNode 0 [10; 7]
         (BranchNode
            [None; Some (LeafNode 3 [3; 5; 5] "45.0ETH"); None; None; None;
             None; None;
             Some (ExtensionNode 0 [13; 3]
                     (BranchNode
                        [None; None; None;
                         Some (LeafNode 3 [7] "1.00WEI"); None; None; None;
                         None; None; Some (LeafNode 3 [7] "0.12ETH");
                         None; None; None; None; None; None] None));
             None; None; None; None; None; None; None;
             Some (LeafNode 3 [15; 9; 3; 6; 5] "1.1ETH")] None)) |}.
Proof. vm_compute. reflexivity. Qed.

(** ** Arrays: lemmas *)

Section ArrayLemmas.
Context {A : Type}.

Lemma at_index_array_get {B : Type} (k : option A -> B)
  (arr : list (option A)) (i : nat) :
  at_index k arr i = k (array_get arr i).
Proof.
  revert i. induction arr as [|c rest IH]; intros i.
  - destruct i; reflexivity.
  - destruct i as [|j]; simpl.
    + destruct c; reflexivity.
    + rewrite IH. reflexivity.
Qed.

Lemma array_get_set_same (arr : list (option A)) (i : nat) (x : A) :
  array_get (array_set arr i x) i = Some x.
Proof.
  revert arr. induction i as [|j IH]; intros arr.
  - destruct arr; reflexivity.
  - destruct arr as [|c rest]; simpl; apply IH.
Qed.

Lemma array_get_nil (i : nat) : array_get (@nil (option A)) i = None.
Proof. destruct i; reflexivity. Qed.

Lemma array_get_cons_S (c : option A) (rest : list (option A)) (j : nat) :
  array_get (c :: rest) (S j) = array_get rest j.
Proof. reflexivity. Qed.

Lemma array_get_set_other (arr : list (option A)) (i j : nat) (x : A) :
  i <> j -> array_get (array_set arr i x) j = array_get arr j.
Proof.
  revert arr j. induction i as [|i IH]; intros arr j Hij.
  - destruct j as [|j]; [congruence|].
    destruct arr; simpl; rewrite ?array_get_cons_S, ?array_get_nil;
      reflexivity.
  - destruct arr as [|c rest], j as [|j]; simpl; try reflexivity.
    + rewrite array_get_cons_S, IH, !array_get_nil by congruence.
      reflexivity.
    + rewrite !array_get_cons_S. apply IH. congruence.
Qed.

Lemma array_get_In (arr : list (option A)) (i : nat) (x : A) :
  array_get arr i = Some x -> In (Some x) arr.
Proof.
  unfold array_get. destruct (nth_error arr i) as [[y|]|] eqn:E;
    try discriminate.
  intros H. inversion H; subst. eapply nth_error_In; eauto.
Qed.

Lemma array_set_In (arr : list (option A)) (i : nat) (x : A)
  (c : option A) :
  In c (array_set arr i x) -> c = Some x \/ c = None \/ In c arr.
Proof.
  revert arr. induction i as [|j IH]; intros arr H.
  - destruct arr; simpl in H.
    + destruct H as [H|[]]; auto.
    + destruct H as [H|H]; simpl; auto.
  - destruct arr as [|d rest]; simpl in H.
    + destruct H as [H|H]; [now auto|].
      apply IH in H. simpl in H. tauto.
    + destruct H as [H|H]; [subst; simpl; now auto|].
      apply IH in H. simpl. tauto.
Qed.
End ArrayLemmas.

(** ** The common prefix *)

Lemma findCommonPrefix_length_l (a b : list nibble) :
  length (findCommonPrefix a b) <= length a.
Proof.
  revert b. induction a as [|x a IH]; intros [|y b]; simpl; try lia.
  destruct (Nat.eqb x y); simpl; [specialize (IH b)|]; lia.
Qed.

Lemma findCommonPrefix_length_r (a b : list nibble) :
  length (findCommonPrefix a b) <= length b.
Proof.
  revert b. induction a as [|x a IH]; intros [|y b]; simpl; try lia.
  destruct (Nat.eqb x y); simpl; [specialize (IH b)|]; lia.
Qed.

Lemma findCommonPrefix_firstn_l (a b : list nibble) :
  findCommonPrefix a b = firstn (length (findCommonPrefix a b)) a.
Proof.
  revert b. induction a as [|x a IH]; intros [|y b]; simpl; try reflexivity.
  destruct (Nat.eqb x y); simpl; [f_equal; apply IH | reflexivity].
Qed.

Lemma findCommonPrefix_firstn_r (a b : list nibble) :
  findCommonPrefix a b = firstn (length (findCommonPrefix a b)) b.
Proof.
  revert b. induction a as [|x a IH]; intros [|y b]; simpl; try reflexivity.
  destruct (Nat.eqb x y) eqn:E; simpl; [|reflexivity].
  apply Nat.eqb_eq in E. subst. f_equal. apply IH.
Qed.

Lemma skipn_nonempty_hd (n : nat) (l : list nibble) :
  n < length l -> skipn n l = hd 0 (skipn n l) :: skipn 1 (skipn n l).
Proof.
  intros H. destruct (skipn n l) as [|x r] eqn:E; [|reflexivity].
  apply (f_equal (@length nibble)) in E. rewrite length_skipn in E.
  simpl in E. lia.
Qed.

(** ** Well-formedness is kept by insertion *)

Lemma wellFormed_branch (children : list (option TrieNode))
  (value : option string) :
  wellFormed (BranchNode children value) = forallb childWellFormed children.
Proof. reflexivity. Qed.

Lemma forallb_array_set (children : list (option TrieNode)) (i : nat)
  (x : TrieNode) :
  forallb childWellFormed children = true -> wellFormed x = true ->
  forallb childWellFormed (array_set children i x) = true.
Proof.
  intros Hc Hx. apply forallb_forall. intros c Hin.
  apply array_set_In in Hin. destruct Hin as [->|[->|Hin]]; simpl; auto.
  rewrite forallb_forall in Hc. auto.
Qed.

Lemma forallb_repeat_None (n : nat) :
  forallb childWellFormed (repeat None n) = true.
Proof. induction n; simpl; auto. Qed.

Lemma wellFormed_createLeafNode (keyEnd : list nibble) (value : string) :
  wellFormed (createLeafNode keyEnd value) = true.
Proof. reflexivity. Qed.

Lemma wellFormed_createExtensionNode (run : list nibble) (next : TrieNode) :
  0 < length run -> wellFormed next = true ->
  wellFormed (createExtensionNode run next) = true.
Proof.
  intros Hrun Hnext. unfold createExtensionNode. simpl.
  rewrite Hnext. destruct (length run); [lia|reflexivity].
Qed.

Lemma wellFormed_createBranchNode (value : option string) :
  wellFormed (createBranchNode value) = true.
Proof. reflexivity. Qed.

Lemma wellFormed_setChild (branchNode : TrieNode) (index : nat)
  (child : TrieNode) :
  wellFormed branchNode = true -> wellFormed child = true ->
  wellFormed (setChild branchNode index child) = true.
Proof.
  destruct branchNode as [children value| | |]; simpl; auto.
  intros Hb Hc. apply forallb_array_set; assumption.
Qed.

Create HintDb trie.
#[local] Hint Resolve forallb_array_set forallb_repeat_None
  wellFormed_createLeafNode wellFormed_createExtensionNode
  wellFormed_createBranchNode wellFormed_setChild : trie.

Lemma wellFormed_insertIntoLeaf (keyEnd : list nibble)
  (leafValue : string) (remainingKey : list nibble) (value : string) :
  wellFormed (insertIntoLeaf keyEnd leafValue remainingKey value) = true.
Proof.
  unfold insertIntoLeaf.
  destruct (_ && _); [reflexivity|].
  set (cp := findCommonPrefix keyEnd remainingKey).
  destruct (0 <? length cp) eqn:Hcp.
  - apply Nat.ltb_lt in Hcp. apply wellFormed_createExtensionNode; [lia|].
    destruct (length cp <? length keyEnd), (length cp <? length remainingKey);
      auto with trie.
  - destruct (length cp <? length keyEnd), (length cp <? length remainingKey);
      auto with trie.
Qed.

Lemma insertRecursive_wellFormed (node : TrieNode) :
  wellFormed node = true ->
  forall (keyNibbles : list nibble) (value : string) (depth : nat),
  exists node', insertRecursive node keyNibbles value depth = Ok node'
                /\ wellFormed node' = true.
Proof.
  induction node as [children bv IH|p run next IH|p keyEnd lv|]
    using TrieNode_ind; intros Hwf key value depth.
  - (* branch *)
    simpl. unfold insertIntoBranch.
    set (R := skipn depth key).
    destruct (Nat.eqb (length R) 0); [eexists; split; [reflexivity|exact Hwf]|].
    rewrite at_index_array_get.
    rewrite wellFormed_branch in Hwf.
    destruct (array_get children (hd 0 R)) as [c|] eqn:Hget.
    + pose proof (array_get_In _ _ Hget) as Hin.
      rewrite Forall_forall in IH. specialize (IH _ Hin). simpl in IH.
      assert (Hc : wellFormed c = true).
      { rewrite forallb_forall in Hwf. apply (Hwf _ Hin). }
      destruct (IH Hc (skipn 1 R) value 0) as [c' [Hc' Hwf']].
      rewrite Hc'. simpl. eexists; split; [reflexivity|].
      rewrite wellFormed_branch. auto with trie.
    + simpl. eexists; split; [reflexivity|].
      rewrite wellFormed_branch. auto with trie.
  - (* extension *)
    simpl in Hwf. apply andb_true_iff in Hwf. destruct Hwf as [Hrun Hnext].
    apply negb_true_iff, Nat.eqb_neq in Hrun.
    simpl. unfold insertIntoExtension.
    set (R := skipn depth key).
    set (cp := findCommonPrefix run R).
    destruct (Nat.eqb (length cp) (length run)) eqn:Hfull.
    + destruct (IH Hnext (skipn (length cp) R) value 0) as [n' [Hn' Hwf']].
      rewrite Hn'. simpl. eexists; split; [reflexivity|].
      apply wellFormed_createExtensionNode; [lia|assumption].
    + cbv zeta.
      assert (Hold : wellFormed
                (if 0 <? length (skipn (length cp) run) then
                   if 1 <? length (skipn (length cp) run) then
                     setChild (createBranchNode None)
                       (hd 0 (skipn (length cp) run))
                       (createExtensionNode
                          (skipn 1 (skipn (length cp) run)) next)
                   else setChild (createBranchNode None)
                          (hd 0 (skipn (length cp) run)) next
                 else createBranchNode None) = true).
      { destruct (0 <? _); auto with trie.
        destruct (1 <? _) eqn:H1; auto with trie.
        apply Nat.ltb_lt in H1.
        apply wellFormed_setChild; auto with trie.
        apply wellFormed_createExtensionNode; [|assumption].
        rewrite length_skipn. lia. }
      destruct (0 <? length cp) eqn:Hcp; eexists; (split; [reflexivity|]).
      * apply Nat.ltb_lt in Hcp.
        apply wellFormed_createExtensionNode; [lia|].
        destruct (0 <? length (skipn (length cp) R)); auto with trie.
      * destruct (0 <? length (skipn (length cp) R)); auto with trie.
  - (* leaf *)
    simpl. eexists; split; [reflexivity|]. apply wellFormed_insertIntoLeaf.
  - discriminate.
Qed.

Lemma reachable_wellFormed (this : MerklePatriciaTrie) :
  reachable this -> wellFormedTrie this = true.
Proof.
  induction 1 as [|key value this this' Hreach IH Hins]; [reflexivity|].
  unfold insert in Hins. unfold wellFormedTrie in *.
  destruct (root this) as [r|].
  - destruct (insertRecursive_wellFormed r IH (stringToNibbles key) value 0)
      as [r' [Hr' Hwf]].
    rewrite Hr' in Hins. simpl in Hins. inversion Hins; subst. exact Hwf.
  - inversion Hins; subst. reflexivity.
Qed.

Lemma insert_returns (key value : string) (this : MerklePatriciaTrie) :
  wellFormedTrie this = true ->
  exists this', insert key value this = Ok this'.
Proof.
  unfold wellFormedTrie, insert. intros Hwf.
  destruct (root this) as [r|]; [|eexists; reflexivity].
  destruct (insertRecursive_wellFormed r Hwf (stringToNibbles key) value 0)
    as [r' [Hr' _]].
  rewrite Hr'. eexists; reflexivity.
Qed.

(** ** Depth of the recursion *)

Lemma getRecursiveCounted_result (node : TrieNode)
  (keyNibbles : list nibble) (depth : nat) :
  fst (getRecursiveCounted node keyNibbles depth)
  = getRecursive node keyNibbles depth.
Proof.
  revert keyNibbles depth.
  induction node as [children bv IH|p run next IH|p keyEnd lv|]
    using TrieNode_ind; intros key depth; simpl; try reflexivity.
  - destruct (Nat.eqb (length (skipn depth key)) 0); [reflexivity|].
    rewrite !at_index_array_get.
    destruct (array_get children (hd 0 (skipn depth key))) as [c|] eqn:Hget;
      [|reflexivity].
    pose proof (array_get_In _ _ Hget) as Hin.
    rewrite Forall_forall in IH. specialize (IH _ Hin key (depth + 1)).
    simpl in IH.
    destruct (getRecursiveCounted c key (depth + 1)). exact IH.
  - destruct (_ || _); [reflexivity|].
    specialize (IH key (depth + length run)).
    destruct (getRecursiveCounted next key (depth + length run)). exact IH.
Qed.

Lemma insertRecursiveCounted_result (node : TrieNode)
  (keyNibbles : list nibble) (value : string) (depth : nat) :
  fst (insertRecursiveCounted node keyNibbles value depth)
  = insertRecursive node keyNibbles value depth.
Proof.
  revert keyNibbles depth.
  induction node as [children bv IH|p run next IH|p keyEnd lv|]
    using TrieNode_ind; intros key depth; simpl; try reflexivity.
  - unfold insertIntoBranch.
    destruct (Nat.eqb (length (skipn depth key)) 0) eqn:E.
    + reflexivity.
    + rewrite !at_index_array_get.
      destruct (array_get children (hd 0 (skipn depth key))) as [c|] eqn:Hget.
      * pose proof (array_get_In _ _ Hget) as Hin.
        rewrite Forall_forall in IH.
        specialize (IH _ Hin (skipn 1 (skipn depth key)) 0). simpl in IH.
        destruct (insertRecursiveCounted c _ value 0). simpl in *.
        rewrite IH. reflexivity.
      * reflexivity.
  - unfold insertIntoExtension.
    destruct (Nat.eqb _ (length run)) eqn:E.
    + specialize (IH (skipn (length (findCommonPrefix run (skipn depth key)))
                        (skipn depth key)) 0).
      destruct (insertRecursiveCounted next _ value 0). simpl in *.
      rewrite IH. reflexivity.
    + reflexivity.
Qed.

Lemma insertRecursiveCounted_bound (node : TrieNode) :
  wellFormed node = true ->
  forall (keyNibbles : list nibble) (value : string) (depth : nat),
    snd (insertRecursiveCounted node keyNibbles value depth)
    <= length (skipn depth keyNibbles).
Proof.
  induction node as [children bv IH|p run next IH|p keyEnd lv|]
    using TrieNode_ind; intros Hwf key value depth; simpl; try lia.
  - set (R := skipn depth key).
    destruct (Nat.eqb (length R) 0) eqn:HR; [simpl; lia|].
    apply Nat.eqb_neq in HR.
    rewrite at_index_array_get.
    destruct (array_get children (hd 0 R)) as [c|] eqn:Hget; [|simpl; lia].
    pose proof (array_get_In _ _ Hget) as Hin.
    rewrite Forall_forall in IH. specialize (IH _ Hin). simpl in IH.
    rewrite wellFormed_branch, forallb_forall in Hwf.
    specialize (IH (Hwf _ Hin) (skipn 1 R) value 0).
    change (skipn 0 (skipn 1 R)) with (skipn 1 R) in IH.
    rewrite length_skipn in IH.
    change (match R with [] => [] | _ :: l => l end) with (skipn 1 R).
    destruct (insertRecursiveCounted c (skipn 1 R) value 0). simpl in *. lia.
  - apply andb_true_iff in Hwf. destruct Hwf as [Hrun Hnext].
    apply negb_true_iff, Nat.eqb_neq in Hrun.
    set (R := skipn depth key).
    set (cp := findCommonPrefix run R).
    destruct (Nat.eqb (length cp) (length run)) eqn:Hfull; [|simpl; lia].
    apply Nat.eqb_eq in Hfull.
    specialize (IH Hnext (skipn (length cp) R) value 0).
    change (skipn 0 (skipn (length cp) R)) with (skipn (length cp) R) in IH.
    rewrite length_skipn in IH.
    pose proof (findCommonPrefix_length_r run R) as Hle. fold cp in Hle.
    destruct (insertRecursiveCounted next (skipn (length cp) R) value 0).
    simpl in *. lia.
Qed.

Lemma getRecursiveCounted_bound (node : TrieNode) :
  wellFormed node = true ->
  forall (keyNibbles : list nibble) (depth : nat),
    snd (getRecursiveCounted node keyNibbles depth)
    <= length (skipn depth keyNibbles).
Proof.
  induction node as [children bv IH|p run next IH|p keyEnd lv|]
    using TrieNode_ind; intros Hwf key depth; simpl; try lia.
  - set (R := skipn depth key).
    destruct (Nat.eqb (length R) 0) eqn:HR; [simpl; lia|].
    apply Nat.eqb_neq in HR.
    rewrite at_index_array_get.
    destruct (array_get children (hd 0 R)) as [c|] eqn:Hget; [|simpl; lia].
    pose proof (array_get_In _ _ Hget) as Hin.
    rewrite Forall_forall in IH. specialize (IH _ Hin). simpl in IH.
    rewrite wellFormed_branch, forallb_forall in Hwf.
    specialize (IH (Hwf _ Hin) key (depth + 1)).
    destruct (getRecursiveCounted c key (depth + 1)). simpl in *.
    subst R. rewrite length_skipn in *. lia.
  - apply andb_true_iff in Hwf. destruct Hwf as [Hrun Hnext].
    apply negb_true_iff, Nat.eqb_neq in Hrun.
    set (R := skipn depth key).
    destruct (length R <? length run) eqn:Hlen; simpl; [lia|].
    apply Nat.ltb_ge in Hlen.
    destruct (negb _); [simpl; lia|].
    specialize (IH Hnext key (depth + length run)).
    destruct (getRecursiveCounted next key (depth + length run)).
    simpl in *. subst R. rewrite length_skipn in *. lia.
Qed.

(** ** Length of the nibble sequence of a key *)

Lemma length_list_ascii_of_string (s : string) :
  length (list_ascii_of_string s) = String.length s.
Proof. induction s; simpl; congruence. Qed.

Lemma stringToNibbles_length (key : string) :
  length (stringToNibbles key) <= 2 * String.length key.
Proof.
  unfold stringToNibbles. rewrite <- length_list_ascii_of_string.
  destruct (isHexString key).
  - rewrite length_map. lia.
  - induction (list_ascii_of_string key) as [|c cs IH]; simpl in *; lia.
Qed.

Lemma getCounted_result (key : string) (this : MerklePatriciaTrie) :
  fst (getCounted key this) = get key this.
Proof.
  unfold getCounted, get. destruct (root this); [|reflexivity].
  apply getRecursiveCounted_result.
Qed.

Lemma insertCounted_result (key value : string)
  (this : MerklePatriciaTrie) :
  fst (insertCounted key value this) = insert key value this.
Proof.
  unfold insertCounted, insert. destruct (root this) as [r|]; [|reflexivity].
  pose proof (insertRecursiveCounted_result r (stringToNibbles key) value 0)
    as H.
  destruct (insertRecursiveCounted r (stringToNibbles key) value 0).
  simpl in *. rewrite H. reflexivity.
Qed.

(** C9.  From every trie that calls of [insert] produce, and for every key:
    [get] makes at most as many recursive calls of [getRecursive] as the key
    has nibbles, [insert] at most as many recursive calls of
    [insertRecursive], the key has at most twice as many nibbles as
    characters, and [insert] returns a trie (it does not throw).  The counted
    functions return what [get] and [insert] return.  [getRecursive] and
    [insertRecursive] are structural recursions over the node, so both
    return on every input. *)
Theorem recursion_depth_bounded_by_key_length
  (this : MerklePatriciaTrie) (key value : string) :
  reachable this ->
  fst (getCounted key this) = get key this
  /\ getDepth key this <= length (stringToNibbles key)
  /\ fst (insertCounted key value this) = insert key value this
  /\ insertDepth key value this <= length (stringToNibbles key)
  /\ length (stringToNibbles key) <= 2 * String.length key
  /\ (exists this', insert key value this = Ok this').
Proof.
  intros Hreach. pose proof (reachable_wellFormed Hreach) as Hwf.
  split; [apply getCounted_result|].
  split; [|split; [apply insertCounted_result|split; [|split]]].
  - unfold getDepth, getCounted. unfold wellFormedTrie in Hwf.
    destruct (root this) as [r|]; [|simpl; lia].
    apply (getRecursiveCounted_bound r Hwf (stringToNibbles key) 0).
  - unfold insertDepth, insertCounted. unfold wellFormedTrie in Hwf.
    destruct (root this) as [r|]; [|simpl; lia].
    pose proof (insertRecursiveCounted_bound r Hwf (stringToNibbles key)
                  value 0) as H.
    destruct (insertRecursiveCounted r (stringToNibbles key) value 0).
    exact H.
  - apply stringToNibbles_length.
  - apply insert_returns. exact Hwf.
Qed.

Lemma insertAll_reachable (pairs : list (string * string))
  (this this' : MerklePatriciaTrie) :
  reachable this -> insertAll pairs this = Ok this' -> reachable this'.
Proof.
  revert this. induction pairs as [|[key value] rest IH]; intros this Hr H.
  - inversion H; subst. exact Hr.
  - simpl in H. destruct (insert key value this) as [mid|msg] eqn:Hins;
      [|discriminate].
    simpl in H. apply (IH mid); [|exact H].
    eapply reachable_insert; eassumption.
Qed.

Lemma twoAccounts_reachable : reachable twoAccounts.
Proof.
  apply (@insertAll_reachable
           [("a71355", "45.0ETH"); ("a77d337", "1.00WEI")] newTrie).
  - exact reachable_new.
  - vm_compute. reflexivity.
Qed.

Lemma recursion_depth_bounded_witness :
  reachable twoAccounts
  /\ fst (getCounted "a77d397" twoAccounts) = get "a77d397" twoAccounts
  /\ getDepth "a77d397" twoAccounts <= length (stringToNibbles "a77d397")
  /\ fst (insertCounted "a77d397" "0.12ETH" twoAccounts)
     = insert "a77d397" "0.12ETH" twoAccounts
  /\ insertDepth "a77d397" "0.12ETH" twoAccounts
     <= length (stringToNibbles "a77d397")
  /\ length (stringToNibbles "a77d397") <= 2 * String.length "a77d397"
  /\ (exists this', insert "a77d397" "0.12ETH" twoAccounts = Ok this').
Proof.
  split.
  - exact twoAccounts_reachable.
  - apply (@recursion_depth_bounded_by_key_length twoAccounts "a77d397"
             "0.12ETH").
    exact twoAccounts_reachable.
Defined.

(** ** The empty key *)

(** C10.  The empty string does not match the hexadecimal pattern and has
    no nibbles; on a new trie [insert ('', v)] makes the root a leaf with the
    empty suffix, and [get ('')] then returns [v]. *)
Theorem empty_key_round_trip (v : string) :
  isHexString "" = false
  /\ stringToNibbles "" = []
  /\ insert "" v newTrie = Ok {| root := Some (LeafNode 2 [] v) |}
  /\ get "" {| root := Some (LeafNode 2 [] v) |} = Some v.
Proof. repeat split. Qed.

(** ** Keys that are prefixes of other keys *)

(** C1.  Round trip fails: after [insert ('a71355', '45.0ETH')], the calls
    [insert ('a7', 'x')] and [get ('a7')] give [null], not ['x']. *)
Theorem round_trip_fails_on_prefix_key :
  exists this this' : MerklePatriciaTrie,
    reachable this
    /\ insert "a7" "x" this = Ok this'
    /\ get "a7" this' = None.
Proof.
  exists {| root := Some (LeafNode 2 [10; 7; 1; 3; 5; 5] "45.0ETH") |}.
  exists prefixPair. repeat split.
  apply (@insertAll_reachable [("a71355", "45.0ETH")] newTrie).
  - exact reachable_new.
  - reflexivity.
Qed.

Lemma insertIntoLeaf_shape (keyEnd : list nibble) (leafValue : string)
  (remainingKey : list nibble) (value : string) :
  exists children : list (option TrieNode),
    insertIntoLeaf keyEnd leafValue remainingKey value
    = createLeafNode remainingKey value
    \/ insertIntoLeaf keyEnd leafValue remainingKey value
       = BranchNode children None
    \/ insertIntoLeaf keyEnd leafValue remainingKey value
       = createExtensionNode (findCommonPrefix keyEnd remainingKey)
           (BranchNode children None).
Proof.
  unfold insertIntoLeaf.
  set (cp := findCommonPrefix keyEnd remainingKey).
  destruct (_ && _); [exists []; auto|].
  destruct (length cp <? length keyEnd), (length cp <? length remainingKey),
    (0 <? length cp); eexists; cbn [setChild createBranchNode];
    first [ right; left; reflexivity | right; right; reflexivity ].
Qed.

(** C2.  Inserting 'a7' and 'a71355' in either order gives the same trie,
    an extension over a branch whose own value slot is empty; the value of
    'a7' is not retrievable.  The branch that [insertIntoLeaf] builds never
    has a value, whatever the leaf and the key. *)
Theorem prefix_key_value_is_dropped :
  insertAll [("a7", "x"); ("a71355", "45.0ETH")] newTrie = Ok prefixPair
  /\ insertAll [("a71355", "45.0ETH"); ("a7", "x")] newTrie = Ok prefixPair
  /\ get "a7" prefixPair = None
  /\ get "a71355" prefixPair = Some "45.0ETH"
  /\ (forall keyEnd leafValue remainingKey value,
        exists children : list (option TrieNode),
          insertIntoLeaf keyEnd leafValue remainingKey value
          = createLeafNode remainingKey value
          \/ insertIntoLeaf keyEnd leafValue remainingKey value
             = BranchNode children None
          \/ insertIntoLeaf keyEnd leafValue remainingKey value
             = createExtensionNode (findCommonPrefix keyEnd remainingKey)
                 (BranchNode children None)).
Proof.
  split; [reflexivity|]. split; [reflexivity|]. split; [reflexivity|].
  split; [reflexivity|]. exact insertIntoLeaf_shape.
Qed.

(** ** Overwriting *)

(** C3.  Overwrite fails: after '12', '34' and '55' -> 'v1', the key '55' is
    retrievable; inserting '55' -> 'v2' replaces its leaf by an extension
    over a branch, after which [get ('55')] is [null], the lookup of '55'
    visits one node more, and 'v1' is found under the key '555'. *)
Theorem overwrite_loses_value_and_changes_shape :
  insertAll [("12", "a"); ("34", "b"); ("55", "v1")] newTrie
  = Ok beforeOverwrite
  /\ get "55" beforeOverwrite = Some "v1"
  /\ insert "55" "v2" beforeOverwrite = Ok afterOverwrite
  /\ get "55" afterOverwrite = None
  /\ get "555" afterOverwrite = Some "v1"
  /\ getDepth "55" beforeOverwrite = 1
  /\ getDepth "55" afterOverwrite = 2.
Proof. repeat split. Qed.

(** ** Root hash and insertion order *)

(** C6.  The root hash depends on the insertion order: the pairs
    '12' -> 'a', '34' -> 'b', '35' -> 'c' inserted in two orders give two
    tries (the leaf of '12' stores the suffix 2 in one and 12 in the other)
    with different root hashes. *)
Theorem root_hash_depends_on_insertion_order :
  Permutation [("12", "a"); ("34", "b"); ("35", "c")]
              [("34", "b"); ("35", "c"); ("12", "a")]
  /\ insertAll [("12", "a"); ("34", "b"); ("35", "c")] newTrie = Ok orderA
  /\ insertAll [("34", "b"); ("35", "c"); ("12", "a")] newTrie = Ok orderB
  /\ getRootHash orderA
     = "3f88724452885a55908ee4f4004b97d8598b0baadeb376a2b6a2f685fe1771ef"
  /\ getRootHash orderB
     = "9a8dd5f1559274fa17ba633cc4a40c11cd9adf065e4117210f5a33a017d35a9c"
  /\ getRootHash orderA <> getRootHash orderB.
Proof.
  split; [|split; [|split; [|split; [|split]]]].
  - exact (Permutation_cons_append [("34", "b"); ("35", "c")] ("12", "a")).
  - reflexivity.
  - reflexivity.
  - vm_compute. reflexivity.
  - vm_compute. reflexivity.
  - intros H. vm_compute in H. discriminate H.
Qed.

(** ** Digest of a branch *)

Lemma concat_empty_cons (x : string) (xs : list string) :
  String.concat "" (x :: xs) = (x ++ String.concat "" xs)%string.
Proof.
  destruct xs as [|y ys]; simpl; [|reflexivity].
  induction x as [|c x IH]; simpl; congruence.
Qed.

Lemma calculateNodeHash_branch (children : list (option TrieNode))
  (value : option string) :
  calculateNodeHash (BranchNode children value)
  = keccak256
      (String.concat "" (map calculateNodeHash (presentChildren children))
       ++ match value with
          | Some v => v
          | None => ""
          end)%string.
Proof.
  simpl. do 2 f_equal.
  induction children as [|[c|] rest IH].
  - reflexivity.
  - cbn [map presentChildren flat_map app] in *.
    rewrite !concat_empty_cons. f_equal. exact IH.
  - cbn [map presentChildren flat_map app] in *.
    rewrite concat_empty_cons. exact IH.
Qed.

(** C7.  The digest of a branch is the hash of the digests of its children
    joined in slot order, an empty slot giving the empty string, followed by
    the value of the branch or the empty string.  The slot of a child does
    not enter the digest: the tries of the keys '0a', '1b' and of the keys
    '2a', '3b' hold the same two leaves in slots 0, 1 and in slots 2, 3 and
    have the same root hash. *)
Theorem branch_digest_ignores_slot_position :
  (forall children value,
      calculateNodeHash (BranchNode children value)
      = keccak256
          (String.concat ""
             (map (fun child => match child with
                                | Some c => calculateNodeHash c
                                | None => ""
                                end) children)
           ++ match value with
              | Some v => v
              | None => ""
              end)%string)
  /\ insertAll [("0a", "x"); ("1b", "y")] newTrie = Ok slots01
  /\ insertAll [("2a", "x"); ("3b", "y")] newTrie = Ok slots23
  /\ slots01 <> slots23
  /\ getRootHash slots01 = getRootHash slots23.
Proof.
  split; [|split; [|split; [|split]]].
  - reflexivity.
  - reflexivity.
  - reflexivity.
  - discriminate.
  - unfold getRootHash, slots01, slots23, root.
    rewrite !calculateNodeHash_branch. reflexivity.
Qed.

(** ** Nodes of an unknown kind *)

Lemma findCommonPrefix_app (run rest : list nibble) :
  findCommonPrefix run (run ++ rest) = run.
Proof.
  induction run as [|x run IH]; simpl; [destruct rest; reflexivity|].
  rewrite Nat.eqb_refl, IH. reflexivity.
Qed.

Lemma arraysEqual_eq (arr1 arr2 : list nibble) :
  arraysEqual arr1 arr2 = true <-> arr1 = arr2.
Proof.
  unfold arraysEqual. split.
  - destruct (Nat.eqb (length arr1) (length arr2)) eqn:Hlen; simpl;
      [|discriminate].
    apply Nat.eqb_eq in Hlen. revert arr2 Hlen.
    induction arr1 as [|x arr1 IH]; intros [|y arr2] Hlen H;
      simpl in *; try discriminate; [reflexivity|].
    apply andb_true_iff in H. destruct H as [Hxy H].
    apply Nat.eqb_eq in Hxy. subst. f_equal. apply IH; [lia|exact H].
  - intros ->. rewrite Nat.eqb_refl. simpl.
    induction arr2 as [|y arr2 IH]; simpl; [reflexivity|].
    rewrite Nat.eqb_refl. exact IH.
Qed.

(** A lookup that meets a node of an unknown kind under slot 10 of the root
    branch answers [null]. *)
Lemma lookup_of_unknown_node_is_not_found :
  get "a7"
    {| root := Some (BranchNode (array_set (repeat None 16) 10 OtherNode)
                       None) |}
  = None.
Proof. reflexivity. Qed.

(** C8 (as the code has it).  During insertion a node of an unknown kind is
    fatal: [insertRecursive] throws, also when the node is met below an
    extension or below a branch, and [insert] throws with it.  During lookup
    it is not: [getRecursive] answers [null], the result of a key that is
    not found, also below an extension or a branch; and the hash computation
    takes the content of such a node to be empty. *)
Theorem unknown_node_aborts_insertion_only
  (keyNibbles : list nibble) (value : string) (depth : nat) :
  insertRecursive OtherNode keyNibbles value depth
  = Throw "Tipo de nodo desconocido"
  /\ (forall prefix run,
         insertRecursive (ExtensionNode prefix run OtherNode)
           (run ++ keyNibbles) value 0
         = Throw "Tipo de nodo desconocido")
  /\ (forall children branchValue index,
         insertRecursive
           (BranchNode (array_set children index OtherNode) branchValue)
           (index :: keyNibbles) value 0
         = Throw "Tipo de nodo desconocido")
  /\ (forall key,
         insert key value {| root := Some OtherNode |}
         = Throw "Tipo de nodo desconocido")
  /\ getRecursive OtherNode keyNibbles depth = None
  /\ (forall prefix run,
         getRecursive (ExtensionNode prefix run OtherNode)
           (run ++ keyNibbles) 0 = None)
  /\ (forall children branchValue index,
         getRecursive
           (BranchNode (array_set children index OtherNode) branchValue)
           (index :: keyNibbles) 0 = None)
  /\ (forall key, get key {| root := Some OtherNode |} = None)
  /\ calculateNodeHash OtherNode = keccak256 "".
Proof.
  repeat split.
  - intros prefix run. simpl. unfold insertIntoExtension.
    rewrite findCommonPrefix_app, Nat.eqb_refl. reflexivity.
  - intros children bv index. simpl. unfold insertIntoBranch. simpl.
    rewrite at_index_array_get, array_get_set_same. reflexivity.
  - intros prefix run. simpl.
    replace (length (run ++ keyNibbles) <? length run) with false
      by (symmetry; apply Nat.ltb_ge; rewrite length_app; lia).
    rewrite firstn_app, firstn_all, Nat.sub_diag, app_nil_r. simpl.
    destruct (arraysEqual run run) eqn:E; reflexivity.
  - intros children bv index. simpl.
    rewrite at_index_array_get, array_get_set_same. reflexivity.
Qed.

(** ** The suffix stored in a new leaf *)

(** After '12' and '34' the root is a branch whose slot 5 is empty; inserting
    '56' puts there a leaf with the suffix 56, not 6. *)
Lemma branch_leaf_suffix_is_not_stripped :
  exists (children : list (option TrieNode)) (R : list nibble),
    reachable {| root := Some (BranchNode children None) |}
    /\ R = stringToNibbles "56"
    /\ array_get children (hd 0 R) = None
    /\ insertRecursive (BranchNode children None) R "c" 0
       = Ok (BranchNode
               (array_set children (hd 0 R) (LeafNode 2 [5; 6] "c")) None)
    /\ insertRecursive (BranchNode children None) R "c" 0
       <> Ok (BranchNode
                (array_set children (hd 0 R)
                   (createLeafNode (skipn 1 R) "c")) None).
Proof.
  exists (array_set (array_set (repeat None 16) 1 (LeafNode 3 [2] "a"))
            3 (LeafNode 3 [4] "b")), [5; 6].
  split; [|split; [|split; [|split]]]; try reflexivity; try discriminate.
  apply (@insertAll_reachable [("12", "a"); ("34", "b")] newTrie).
  - exact reachable_new.
  - reflexivity.
Qed.

(** C4 (as the code has it).  When insertion reaches a branch with a
    non-empty remaining key R and the slot R[0] is empty, the leaf placed in
    that slot stores R itself, selecting nibble included.  When an extension
    with run E is split, C being the common prefix of E and R and shorter
    than both, the new leaf placed in slot R[|C|] stores R[|C|:], selecting
    nibble included. *)
Theorem new_leaf_keeps_selecting_nibble
  (children : list (option TrieNode)) (branchValue : option string)
  (prefix : nat) (run : list nibble) (nextNode : TrieNode)
  (keyNibbles : list nibble) (value : string) (depth : nat) :
  0 < length (skipn depth keyNibbles) ->
  array_get children (hd 0 (skipn depth keyNibbles)) = None ->
  length (findCommonPrefix run (skipn depth keyNibbles)) < length run ->
  length (findCommonPrefix run (skipn depth keyNibbles))
  < length (skipn depth keyNibbles) ->
  insertRecursive (BranchNode children branchValue) keyNibbles value depth
  = Ok (BranchNode
          (array_set children (hd 0 (skipn depth keyNibbles))
             (createLeafNode (skipn depth keyNibbles) value))
          branchValue)
  /\ exists (children' : list (option TrieNode)) (R' : list nibble),
      R' = skipn (length (findCommonPrefix run (skipn depth keyNibbles)))
             (skipn depth keyNibbles)
      /\ insertRecursive (ExtensionNode prefix run nextNode) keyNibbles value
           depth
         = Ok (if 0 <? length (findCommonPrefix run (skipn depth keyNibbles))
               then createExtensionNode
                      (findCommonPrefix run (skipn depth keyNibbles))
                      (BranchNode children' None)
               else BranchNode children' None)
      /\ array_get children' (hd 0 R') = Some (createLeafNode R' value).
Proof.
  set (R := skipn depth keyNibbles). set (cp := findCommonPrefix run R).
  intros HR Hslot Hrun Hkey. split.
  - simpl. unfold insertIntoBranch. fold R.
    destruct (Nat.eqb (length R) 0) eqn:E;
      [apply Nat.eqb_eq in E; lia|].
    rewrite at_index_array_get, Hslot. reflexivity.
  - simpl. unfold insertIntoExtension. fold R. fold cp.
    destruct (Nat.eqb (length cp) (length run)) eqn:E;
      [apply Nat.eqb_eq in E; lia|].
    replace (0 <? length (skipn (length cp) R)) with true
      by (symmetry; apply Nat.ltb_lt; rewrite length_skipn; lia).
    cbv zeta.
    assert (Hold : exists cs,
               (if 0 <? length (skipn (length cp) run) then
                  if 1 <? length (skipn (length cp) run) then
                    setChild (createBranchNode None)
                      (hd 0 (skipn (length cp) run))
                      (createExtensionNode
                         (skipn 1 (skipn (length cp) run)) nextNode)
                  else setChild (createBranchNode None)
                         (hd 0 (skipn (length cp) run)) nextNode
                else createBranchNode None) = BranchNode cs None).
    { destruct (0 <? _); [destruct (1 <? _)|]; eexists; reflexivity. }
    destruct Hold as [cs ->]. cbn [setChild].
    eexists. exists (skipn (length cp) R).
    split; [reflexivity|]. split.
    + destruct (0 <? length cp); reflexivity.
    + apply array_get_set_same.
Qed.

Lemma new_leaf_keeps_selecting_nibble_witness :
  0 < length (skipn 0 [1; 3])
  /\ array_get (repeat (@None TrieNode) 16) (hd 0 (skipn 0 [1; 3])) = None
  /\ length (findCommonPrefix [1; 2] (skipn 0 [1; 3])) < length [1; 2]
  /\ length (findCommonPrefix [1; 2] (skipn 0 [1; 3]))
     < length (skipn 0 [1; 3])
  /\ insertRecursive (BranchNode (repeat None 16) None) [1; 3] "v" 0
     = Ok (BranchNode
             (array_set (repeat None 16) (hd 0 (skipn 0 [1; 3]))
                (createLeafNode (skipn 0 [1; 3]) "v")) None)
  /\ exists (children' : list (option TrieNode)) (R' : list nibble),
      R' = skipn (length (findCommonPrefix [1; 2] (skipn 0 [1; 3])))
             (skipn 0 [1; 3])
      /\ insertRecursive (ExtensionNode 0 [1; 2] (LeafNode 2 [] "w"))
           [1; 3] "v" 0
         = Ok (if 0 <? length (findCommonPrefix [1; 2] (skipn 0 [1; 3]))
               then createExtensionNode
                      (findCommonPrefix [1; 2] (skipn 0 [1; 3]))
                      (BranchNode children' None)
               else BranchNode children' None)
      /\ array_get children' (hd 0 R') = Some (createLeafNode R' "v").
Proof.
  split; [simpl; lia|]. split; [reflexivity|]. split; [simpl; lia|].
  split; [simpl; lia|].
  apply (@new_leaf_keeps_selecting_nibble (repeat None 16) None 0
           [1; 2] (LeafNode 2 [] "w") [1; 3] "v" 0).
  - simpl; lia.
  - reflexivity.
  - simpl; lia.
  - simpl; lia.
Defined.

(** ** Lookup at a leaf *)

Lemma findBranchIndex_Some (keyNibbles : list nibble) (depth : nat)
  (b : nat) :
  findBranchIndex keyNibbles (Z.of_nat depth - 1) = Some b
  <-> 1 <= depth /\ nth_error keyNibbles (depth - 1) = Some b.
Proof.
  unfold findBranchIndex.
  destruct (Z.of_nat depth - 1 <? 0)%Z eqn:Hneg; simpl.
  - apply Z.ltb_lt in Hneg. split; [discriminate|]. intros [H _]. lia.
  - apply Z.ltb_ge in Hneg.
    replace (Z.to_nat (Z.of_nat depth - 1)) with (depth - 1) by lia.
    destruct (Z.of_nat depth - 1 >=? Z.of_nat (length keyNibbles))%Z
      eqn:Hlen.
    + split; [discriminate|]. intros [_ H].
      apply Z.geb_le in Hlen.
      assert (depth - 1 < length keyNibbles)
        by (apply nth_error_Some; congruence).
      lia.
    + split; [intros H; split; [lia|exact H] | intros [_ H]; exact H].
Qed.

(** The lookup of '56' in the trie of '12', '34', '56' reaches the leaf of
    slot 5 having consumed one nibble; the nibbles not yet consumed are 6,
    the leaf stores 56, and the value of the leaf is returned. *)
Lemma leaf_lookup_accepts_other_than_suffix :
  exists (this : MerklePatriciaTrie) (children : list (option TrieNode)),
    reachable this
    /\ root this = Some (BranchNode children None)
    /\ array_get children 5 = Some (LeafNode 2 [5; 6] "c")
    /\ get "56" this
       = getRecursive (LeafNode 2 [5; 6] "c") (stringToNibbles "56") 1
    /\ skipn 1 (stringToNibbles "56") <> [5; 6]
    /\ getRecursive (LeafNode 2 [5; 6] "c") (stringToNibbles "56") 1
       = Some "c".
Proof.
  exists {| root := Some
              (BranchNode
                 (array_set
                    (array_set
                       (array_set (repeat None 16) 1 (LeafNode 3 [2] "a"))
                       3 (LeafNode 3 [4] "b"))
                    5 (LeafNode 2 [5; 6] "c")) None) |}.
  eexists.
  split; [|split; [reflexivity|split; [reflexivity|split;
    [reflexivity|split; [discriminate|reflexivity]]]]].
  apply (@insertAll_reachable [("12", "a"); ("34", "b"); ("56", "c")]
           newTrie).
  - exact reachable_new.
  - reflexivity.
Qed.

(** C5 (as the code has it).  At a leaf with stored suffix S, lookup returns
    the value of the leaf if and only if the key nibbles not yet consumed
    equal S, or at least one nibble has been consumed and the last consumed
    nibble followed by the nibbles not yet consumed equals S; otherwise it
    reports absent. *)
Theorem leaf_lookup_compares_with_rebuilt_key
  (prefix : nat) (keyEnd : list nibble) (value : string)
  (keyNibbles : list nibble) (depth : nat) :
  (getRecursive (LeafNode prefix keyEnd value) keyNibbles depth = Some value
   <-> (skipn depth keyNibbles = keyEnd
        \/ (1 <= depth
            /\ exists b, nth_error keyNibbles (depth - 1) = Some b
                         /\ b :: skipn depth keyNibbles = keyEnd)))
  /\ (getRecursive (LeafNode prefix keyEnd value) keyNibbles depth
      = Some value
      \/ getRecursive (LeafNode prefix keyEnd value) keyNibbles depth
         = None).
Proof.
  simpl. set (R := skipn depth keyNibbles).
  split.
  - destruct (length R <? length keyEnd) eqn:Hlen.
    + apply Nat.ltb_lt in Hlen.
      destruct (findBranchIndex keyNibbles (Z.of_nat depth - 1))
        as [b|] eqn:Hidx.
      * apply findBranchIndex_Some in Hidx. destruct Hidx as [Hd Hb].
        destruct (arraysEqual keyEnd (b :: R)) eqn:E.
        -- apply arraysEqual_eq in E. split; [|reflexivity].
           intros _. right. split; [exact Hd|]. exists b. auto.
        -- split; [discriminate|]. intros [H|[_ [b' [Hb' H]]]].
           ++ rewrite H in Hlen. lia.
           ++ assert (b' = b) by congruence. subst b'.
              assert (arraysEqual keyEnd (b :: R) = true)
                by (apply arraysEqual_eq; auto).
              congruence.
      * destruct (arraysEqual keyEnd R) eqn:E.
        -- apply arraysEqual_eq in E. rewrite E in Hlen. lia.
        -- split; [discriminate|]. intros [H|[Hd [b [Hb H]]]].
           ++ rewrite H in Hlen. lia.
           ++ assert (findBranchIndex keyNibbles (Z.of_nat depth - 1)
                      = Some b) by (apply findBranchIndex_Some; auto).
              congruence.
    + apply Nat.ltb_ge in Hlen.
      destruct (arraysEqual keyEnd R) eqn:E.
      * apply arraysEqual_eq in E. split; [auto|reflexivity].
      * split; [discriminate|]. intros [H|[_ [b [_ H]]]].
        -- assert (arraysEqual keyEnd R = true) by (apply arraysEqual_eq; auto).
           congruence.
        -- rewrite <- H in Hlen. simpl in Hlen. lia.
  - destruct (arraysEqual keyEnd _); auto.
Qed.

(** * Further properties of the code *)

(** ** The nibble codec *)

Lemma hexDigit_range (c : ascii) (d : nibble) :
  hexDigit c = Some d -> d < 16.
Proof.
  unfold hexDigit.
  destruct ((48 <=? nat_of_ascii c) && (nat_of_ascii c <=? 57)) eqn:E1.
  { apply andb_true_iff in E1. destruct E1 as [_ H].
    apply Nat.leb_le in H. intros [= <-]. lia. }
  destruct ((97 <=? nat_of_ascii c) && (nat_of_ascii c <=? 102)) eqn:E2.
  { apply andb_true_iff in E2. destruct E2 as [_ H].
    apply Nat.leb_le in H. intros [= <-]. lia. }
  destruct ((65 <=? nat_of_ascii c) && (nat_of_ascii c <=? 70)) eqn:E3.
  { apply andb_true_iff in E3. destruct E3 as [_ H].
    apply Nat.leb_le in H. intros [= <-]. lia. }
  discriminate.
Qed.

Lemma land_15_range (n : nat) : Nat.land n 15 < 16.
Proof.
  change 15 with (Nat.ones 4). rewrite Nat.land_ones.
  apply Nat.mod_upper_bound. discriminate.
Qed.

Lemma stringToNibbles_Forall (key : string) :
  Forall (fun n => n < 16) (stringToNibbles key).
Proof.
  unfold stringToNibbles. destruct (isHexString key).
  - apply Forall_forall. intros n Hin. apply in_map_iff in Hin.
    destruct Hin as [c [Hc _]].
    destruct (hexDigit c) as [d|] eqn:E; subst; [|lia].
    exact (hexDigit_range c E).
  - induction (list_ascii_of_string key) as [|c cs IH]; simpl;
      [constructor|].
    constructor; [apply land_15_range|].
    constructor; [apply land_15_range|exact IH].
Qed.

(** X1.  Every element of [stringToNibbles (key)] is below 16.  A key of
    hexadecimal digits gives one nibble per character, any other key two
    nibbles per character. *)
Theorem stringToNibbles_range_and_length (key : string) :
  Forall (fun n => n < 16) (stringToNibbles key)
  /\ length (stringToNibbles key)
     = if isHexString key then String.length key
       else 2 * String.length key.
Proof.
  split; [apply stringToNibbles_Forall|].
  unfold stringToNibbles. rewrite <- length_list_ascii_of_string.
  destruct (isHexString key).
  - apply length_map.
  - induction (list_ascii_of_string key) as [|c cs IH]; simpl in *; lia.
Qed.






(** ** The prefix tag *)

Lemma string_length_append (a b : string) :
  String.length (a ++ b)%string = String.length a + String.length b.
Proof. induction a as [|c a IH]; simpl; congruence. Qed.

Lemma nibbleChar_length (n : nibble) :
  n < 16 -> String.length (nibbleChar n) = 1.
Proof.
  intros H. do 16 (destruct n as [|n]; [reflexivity|]). lia.
Qed.

Lemma joinNibbles_length (nibbles : list nibble) :
  Forall (fun n => n < 16) nibbles ->
  String.length (joinNibbles nibbles) = length nibbles.
Proof.
  unfold joinNibbles. induction 1 as [|n ns Hn _ IH]; [reflexivity|].
  cbn [map]. rewrite concat_empty_cons, string_length_append, IH,
    nibbleChar_length by exact Hn.
  reflexivity.
Qed.

(** X3.  The tag that [encodePrefix] gives a run is 2 or 3 for a leaf and 0
    or 1 for an extension, odd exactly when the run has an odd number of
    nibbles, and the encoded run, with the digit 0 put before an odd run,
    has an even number of characters. *)
Theorem encodePrefix_tag_and_padding (nibbles : list nibble)
  (isLeaf : bool) :
  Forall (fun n => n < 16) nibbles ->
  fst (encodePrefix nibbles isLeaf)
  = (if isLeaf then 2 else 0) + length nibbles mod 2
  /\ String.length (snd (encodePrefix nibbles isLeaf))
     = length nibbles + length nibbles mod 2
  /\ String.length (snd (encodePrefix nibbles isLeaf)) mod 2 = 0.
Proof.
  intros Hrange. unfold encodePrefix. cbn [fst snd].
  pose proof (Nat.mod_upper_bound (length nibbles) 2 ltac:(discriminate))
    as Hmod.
  pose proof (Nat.div_mod_eq (length nibbles) 2) as Hdiv.
  assert (Hlen : String.length
                   (if length nibbles mod 2 =? 1
                    then ("0" ++ joinNibbles nibbles)%string
                    else joinNibbles nibbles)
                 = length nibbles + length nibbles mod 2).
  { destruct (length nibbles mod 2 =? 1) eqn:E.
    - apply Nat.eqb_eq in E. rewrite E. cbn [append String.length].
      rewrite joinNibbles_length by exact Hrange. lia.
    - apply Nat.eqb_neq in E. rewrite joinNibbles_length by exact Hrange.
      lia. }
  split; [|split].
  - destruct (length nibbles mod 2 =? 1) eqn:E.
    + apply Nat.eqb_eq in E. rewrite E. destruct isLeaf; reflexivity.
    + apply Nat.eqb_neq in E.
      replace (length nibbles mod 2) with 0 by lia.
      destruct isLeaf; reflexivity.
  - exact Hlen.
  - rewrite Hlen.
    replace (length nibbles + length nibbles mod 2)
      with ((length nibbles / 2 + length nibbles mod 2) * 2) by lia.
    apply Nat.Div0.mod_mul.
Qed.

Lemma encodePrefix_tag_and_padding_witness :
  Forall (fun n => n < 16) [15; 9; 3; 6; 5]
  /\ fst (encodePrefix [15; 9; 3; 6; 5] true)
     = 2 + length [15; 9; 3; 6; 5] mod 2
  /\ String.length (snd (encodePrefix [15; 9; 3; 6; 5] true))
     = length [15; 9; 3; 6; 5] + length [15; 9; 3; 6; 5] mod 2
  /\ String.length (snd (encodePrefix [15; 9; 3; 6; 5] true)) mod 2 = 0.
Proof.
  assert (H : Forall (fun n => n < 16) [15; 9; 3; 6; 5])
    by (repeat constructor).
  split; [exact H|].
  exact (@encodePrefix_tag_and_padding [15; 9; 3; 6; 5] true H).
Defined.

(** ** The common prefix and the comparison of arrays *)

(** X4.  [findCommonPrefix] returns the longest common prefix: the result
    is a prefix of both arrays, and where both arrays go on after it their
    next elements differ. *)
Theorem findCommonPrefix_is_longest (nibbles1 nibbles2 : list nibble) :
  nibbles1
  = findCommonPrefix nibbles1 nibbles2
    ++ skipn (length (findCommonPrefix nibbles1 nibbles2)) nibbles1
  /\ nibbles2
     = findCommonPrefix nibbles1 nibbles2
       ++ skipn (length (findCommonPrefix nibbles1 nibbles2)) nibbles2
  /\ (forall x y,
         nth_error nibbles1 (length (findCommonPrefix nibbles1 nibbles2))
         = Some x ->
         nth_error nibbles2 (length (findCommonPrefix nibbles1 nibbles2))
         = Some y ->
         x <> y).
Proof.
  split; [|split].
  - rewrite (findCommonPrefix_firstn_l nibbles1 nibbles2) at 1.
    symmetry. apply firstn_skipn.
  - rewrite (findCommonPrefix_firstn_r nibbles1 nibbles2) at 1.
    symmetry. apply firstn_skipn.
  - revert nibbles2.
    induction nibbles1 as [|a rest1 IH]; intros [|b rest2] x y;
      simpl; try discriminate.
    destruct (Nat.eqb a b) eqn:E; simpl.
    + apply IH.
    + apply Nat.eqb_neq in E. intros [= <-] [= <-]. exact E.
Qed.

(** X5.  [arraysEqual] answers [true] exactly for equal arrays. *)
Theorem arraysEqual_decides_equality (arr1 arr2 : list nibble) :
  arraysEqual arr1 arr2 = true <-> arr1 = arr2.
Proof. exact (arraysEqual_eq arr1 arr2). Qed.

(** ** Insertion followed by lookup *)

Lemma getRecursive_branch (children : list (option TrieNode))
  (value : option string) (keyNibbles : list nibble) (depth : nat) :
  getRecursive (BranchNode children value) keyNibbles depth
  = if Nat.eqb (length (skipn depth keyNibbles)) 0 then value
    else match array_get children (hd 0 (skipn depth keyNibbles)) with
         | Some c => getRecursive c keyNibbles (depth + 1)
         | None => None
         end.
Proof.
  cbn [getRecursive]. cbv zeta.
  destruct (Nat.eqb (length (skipn depth keyNibbles)) 0); [reflexivity|].
  rewrite at_index_array_get. reflexivity.
Qed.

Lemma getRecursive_extension (prefix : nat) (run : list nibble)
  (next : TrieNode) (keyNibbles : list nibble) (depth : nat) :
  getRecursive (ExtensionNode prefix run next) keyNibbles depth
  = if (length (skipn depth keyNibbles) <? length run)
       || negb (arraysEqual run
                  (firstn (length run) (skipn depth keyNibbles)))
    then None
    else getRecursive next keyNibbles (depth + length run).
Proof. reflexivity. Qed.

Lemma insertRecursive_branch (children : list (option TrieNode))
  (branchValue : option string) (R : list nibble) (value : string) :
  insertRecursive (BranchNode children branchValue) R value 0
  = if Nat.eqb (length R) 0 then Ok (BranchNode children (Some value))
    else match array_get children (hd 0 R) with
         | None =>
             Ok (BranchNode
                   (array_set children (hd 0 R) (createLeafNode R value))
                   branchValue)
         | Some c =>
             newChild <- insertRecursive c (skipn 1 R) value 0 ;;
             Ok (BranchNode (array_set children (hd 0 R) newChild)
                   branchValue)
         end.
Proof.
  cbn [insertRecursive]. cbv zeta. change (skipn 0 R) with R.
  unfold insertIntoBranch.
  destruct (Nat.eqb (length R) 0); [reflexivity|].
  rewrite at_index_array_get.
  destruct (array_get children (hd 0 R)); reflexivity.
Qed.

Lemma insertStoresValue_branch (children : list (option TrieNode))
  (branchValue : option string) (R : list nibble) :
  insertStoresValue (BranchNode children branchValue) R
  = if Nat.eqb (length R) 0 then true
    else match array_get children (hd 0 R) with
         | None => true
         | Some c => insertStoresValue c (skipn 1 R)
         end.
Proof.
  cbn [insertStoresValue].
  destruct (Nat.eqb (length R) 0); [reflexivity|].
  rewrite at_index_array_get.
  destruct (array_get children (hd 0 R)); reflexivity.
Qed.

Lemma arraysEqual_refl (arr : list nibble) : arraysEqual arr arr = true.
Proof. apply arraysEqual_eq. reflexivity. Qed.

Lemma skipn_cons_nth (key : list nibble) (depth : nat) (b : nibble) :
  nth_error key depth = Some b ->
  skipn depth key = b :: skipn (depth + 1) key.
Proof.
  revert depth. induction key as [|x key IH]; intros [|d] H;
    simpl in *; try discriminate.
  - congruence.
  - apply IH. exact H.
Qed.

(** A leaf that stores the nibbles from [depth] on is found at [depth]. *)
Lemma getRecursive_leaf_exact (prefix : nat) (value : string)
  (keyNibbles : list nibble) (depth : nat) :
  getRecursive (LeafNode prefix (skipn depth keyNibbles) value) keyNibbles
    depth
  = Some value.
Proof.
  cbn [getRecursive]. cbv zeta.
  rewrite Nat.ltb_irrefl, arraysEqual_refl. reflexivity.
Qed.

(** A leaf that stores the nibbles from [depth] on is found one nibble
    later, through the nibble that [findBranchIndex] puts back. *)
Lemma getRecursive_leaf_rebuilt (prefix : nat) (value : string)
  (keyNibbles : list nibble) (depth : nat) :
  0 < length (skipn depth keyNibbles) ->
  getRecursive (LeafNode prefix (skipn depth keyNibbles) value) keyNibbles
    (depth + 1)
  = Some value.
Proof.
  intros Hlen. rewrite length_skipn in Hlen.
  destruct (nth_error keyNibbles depth) as [b|] eqn:Hb;
    [|apply nth_error_None in Hb; lia].
  cbn [getRecursive]. cbv zeta.
  rewrite (skipn_cons_nth _ _ Hb).
  replace (length (skipn (depth + 1) keyNibbles)
           <? length (b :: skipn (depth + 1) keyNibbles)) with true
    by (symmetry; apply Nat.ltb_lt; simpl; lia).
  assert (Hidx : findBranchIndex keyNibbles (Z.of_nat (depth + 1) - 1)
                 = Some b).
  { apply findBranchIndex_Some. split; [lia|].
    replace (depth + 1 - 1) with depth by lia. exact Hb. }
  rewrite Hidx, arraysEqual_refl. reflexivity.
Qed.

(** Lookup through the extension that wraps a new branch. *)
Lemma getRecursive_wrapped (commonPrefix : list nibble) (branch : TrieNode)
  (keyNibbles : list nibble) (depth : nat) :
  commonPrefix
  = firstn (length commonPrefix) (skipn depth keyNibbles) ->
  length commonPrefix <= length (skipn depth keyNibbles) ->
  getRecursive
    (if 0 <? length commonPrefix
     then createExtensionNode commonPrefix branch else branch)
    keyNibbles depth
  = getRecursive branch keyNibbles (depth + length commonPrefix).
Proof.
  intros Hcp Hle. destruct (0 <? length commonPrefix) eqn:E.
  - unfold createExtensionNode. rewrite getRecursive_extension.
    replace (length (skipn depth keyNibbles) <? length commonPrefix)
      with false by (symmetry; apply Nat.ltb_ge; exact Hle).
    rewrite <- Hcp, arraysEqual_refl. reflexivity.
  - apply Nat.ltb_ge in E.
    replace (length commonPrefix) with 0 by lia.
    rewrite Nat.add_0_r. reflexivity.
Qed.

Lemma skipn_add (a b : nat) (key : list nibble) :
  skipn a (skipn b key) = skipn (b + a) key.
Proof. rewrite skipn_skipn. f_equal. lia. Qed.

Lemma getRecursive_after_insertIntoLeaf (keyEnd : list nibble)
  (leafValue value : string) (keyNibbles : list nibble) (depth : nat) :
  getRecursive
    (insertIntoLeaf keyEnd leafValue (skipn depth keyNibbles) value)
    keyNibbles depth
  = if insertStoresValue (LeafNode 0 keyEnd leafValue)
         (skipn depth keyNibbles)
    then Some value else None.
Proof.
  cbn [insertStoresValue]. unfold insertIntoLeaf.
  set (R := skipn depth keyNibbles).
  set (cp := findCommonPrefix keyEnd R).
  pose proof (findCommonPrefix_length_r keyEnd R) as Hle. fold cp in Hle.
  pose proof (findCommonPrefix_firstn_r keyEnd R) as Hpre. fold cp in Hpre.
  destruct (Nat.eqb (length cp) (length keyEnd)
            && Nat.eqb (length cp) (length R)) eqn:Hsame.
  - cbn [orb]. apply getRecursive_leaf_exact.
  - cbn [orb]. cbv zeta.
    assert (Hold : exists cs,
               (if length cp <? length keyEnd then
                  setChild (createBranchNode None)
                    (hd 0 (skipn (length cp) keyEnd))
                    (createLeafNode (skipn 1 (skipn (length cp) keyEnd))
                       leafValue)
                else createBranchNode None) = BranchNode cs None).
    { destruct (length cp <? length keyEnd); eexists; reflexivity. }
    destruct Hold as [cs ->].
    destruct (length cp <? length R) eqn:Hnew.
    + apply Nat.ltb_lt in Hnew. cbn [setChild].
      rewrite getRecursive_wrapped by assumption.
      rewrite getRecursive_branch.
      fold R. unfold R at 1 2. rewrite <- skipn_add. fold R.
      replace (Nat.eqb (length (skipn (length cp) R)) 0) with false
        by (symmetry; apply Nat.eqb_neq; rewrite length_skipn; lia).
      rewrite array_get_set_same. unfold createLeafNode.
      rewrite skipn_add. unfold R. rewrite skipn_add.
      rewrite <- Nat.add_assoc. apply getRecursive_leaf_exact.
    + apply Nat.ltb_ge in Hnew.
      rewrite getRecursive_wrapped by assumption.
      rewrite getRecursive_branch.
      rewrite <- skipn_add. fold R.
      replace (Nat.eqb (length (skipn (length cp) R)) 0) with true
        by (symmetry; apply Nat.eqb_eq; rewrite length_skipn; lia).
      reflexivity.
Qed.

Lemma insertRecursive_extension (prefix : nat) (run : list nibble)
  (next : TrieNode) (R : list nibble) (value : string) :
  insertRecursive (ExtensionNode prefix run next) R value 0
  = insertIntoExtension insertRecursive run next R value 0.
Proof. reflexivity. Qed.

Lemma getRecursive_after_split (run : list nibble) (next : TrieNode)
  (value : string) (keyNibbles : list nibble) (depth : nat)
  (self : TrieNode -> list nibble -> string -> nat -> result TrieNode) :
  Nat.eqb (length (findCommonPrefix run (skipn depth keyNibbles)))
    (length run) = false ->
  exists node',
    insertIntoExtension self run next (skipn depth keyNibbles) value 0
    = Ok node'
    /\ getRecursive node' keyNibbles depth
       = if 0 <? length
                   (skipn
                      (length
                         (findCommonPrefix run (skipn depth keyNibbles)))
                      (skipn depth keyNibbles))
         then Some value else None.
Proof.
  intros Hsplit. unfold insertIntoExtension.
  set (R := skipn depth keyNibbles) in *.
  set (cp := findCommonPrefix run R) in *.
  pose proof (findCommonPrefix_length_r run R) as Hle. fold cp in Hle.
  pose proof (findCommonPrefix_firstn_r run R) as Hpre. fold cp in Hpre.
  rewrite Hsplit. cbv zeta.
  assert (Hold : exists cs,
             (if 0 <? length (skipn (length cp) run) then
                if 1 <? length (skipn (length cp) run) then
                  setChild (createBranchNode None)
                    (hd 0 (skipn (length cp) run))
                    (createExtensionNode
                       (skipn 1 (skipn (length cp) run)) next)
                else setChild (createBranchNode None)
                       (hd 0 (skipn (length cp) run)) next
              else createBranchNode None) = BranchNode cs None).
  { destruct (0 <? _); [destruct (1 <? _)|]; eexists; reflexivity. }
  destruct Hold as [cs ->].
  assert (Hwrap : forall b,
             (if 0 <? length cp
              then Ok (createExtensionNode cp b) else Ok b)
             = Ok (if 0 <? length cp
                   then createExtensionNode cp b else b))
    by (intros b; destruct (0 <? length cp); reflexivity).
  rewrite Hwrap. eexists. split; [reflexivity|].
  rewrite getRecursive_wrapped by assumption.
  destruct (0 <? length (skipn (length cp) R)) eqn:Hnew.
  - apply Nat.ltb_lt in Hnew. cbn [setChild].
    rewrite getRecursive_branch.
    fold R. unfold R at 1 2. rewrite <- skipn_add. fold R.
    replace (Nat.eqb (length (skipn (length cp) R)) 0) with false
      by (symmetry; apply Nat.eqb_neq; lia).
    rewrite array_get_set_same. unfold createLeafNode.
    unfold R. rewrite skipn_add.
    apply getRecursive_leaf_rebuilt.
    rewrite <- skipn_add. exact Hnew.
  - apply Nat.ltb_ge in Hnew.
    rewrite getRecursive_branch. rewrite <- skipn_add. fold R.
    replace (Nat.eqb (length (skipn (length cp) R)) 0) with true
      by (symmetry; apply Nat.eqb_eq; lia).
    reflexivity.
Qed.

Lemma insert_then_get_node (node : TrieNode) :
  wellFormed node = true ->
  forall (keyNibbles : list nibble) (depth : nat) (value : string),
  exists node',
    insertRecursive node (skipn depth keyNibbles) value 0 = Ok node'
    /\ getRecursive node' keyNibbles depth
       = if insertStoresValue node (skipn depth keyNibbles)
         then Some value else None.
Proof.
  induction node as [children bv IH|p run next IH|p keyEnd lv|]
    using TrieNode_ind; intros Hwf key depth value.
  - (* branch *)
    rewrite insertRecursive_branch, insertStoresValue_branch.
    set (R := skipn depth key).
    destruct (Nat.eqb (length R) 0) eqn:HR.
    + eexists. split; [reflexivity|].
      rewrite getRecursive_branch. fold R. rewrite HR. reflexivity.
    + assert (Hlen : 0 < length R) by (apply Nat.eqb_neq in HR; lia).
      destruct (array_get children (hd 0 R)) as [c|] eqn:Hget.
      * pose proof (array_get_In _ _ Hget) as Hin.
        rewrite Forall_forall in IH. specialize (IH _ Hin). simpl in IH.
        rewrite wellFormed_branch, forallb_forall in Hwf.
        destruct (IH (Hwf _ Hin) key (depth + 1) value)
          as [c' [Hins Hlook]].
        unfold R. rewrite skipn_add. rewrite Hins. cbn [bind].
        eexists. split; [reflexivity|].
        rewrite getRecursive_branch. fold R. rewrite HR.
        rewrite array_get_set_same. exact Hlook.
      * eexists. split; [reflexivity|].
        rewrite getRecursive_branch. fold R. rewrite HR.
        rewrite array_get_set_same. unfold createLeafNode.
        apply getRecursive_leaf_rebuilt. exact Hlen.
  - (* extension *)
    simpl in Hwf. apply andb_true_iff in Hwf. destruct Hwf as [_ Hnext].
    rewrite insertRecursive_extension. cbn [insertStoresValue].
    set (R := skipn depth key).
    set (cp := findCommonPrefix run R).
    destruct (Nat.eqb (length cp) (length run)) eqn:Hfull.
    + apply Nat.eqb_eq in Hfull.
      pose proof (findCommonPrefix_length_r run R) as Hle. fold cp in Hle.
      pose proof (findCommonPrefix_firstn_r run R) as Hr. fold cp in Hr.
      pose proof (findCommonPrefix_firstn_l run R) as Hl. fold cp in Hl.
      rewrite Hfull, firstn_all in Hl.
      destruct (IH Hnext key (depth + length run) value)
        as [n' [Hins Hlook]].
      unfold insertIntoExtension. fold cp.
      rewrite Hfull, Nat.eqb_refl. unfold R. rewrite skipn_add.
      rewrite Hins. cbn [bind]. eexists. split; [reflexivity|].
      unfold createExtensionNode. rewrite getRecursive_extension. fold R.
      replace (length R <? length run) with false
        by (symmetry; apply Nat.ltb_ge; lia).
      rewrite <- Hfull, <- Hr, Hl, arraysEqual_refl. cbn [negb orb].
      exact Hlook.
    + apply (getRecursive_after_split run next value key depth
               insertRecursive Hfull).
  - (* leaf *)
    eexists. split; [reflexivity|].
    change (skipn 0 (skipn depth key)) with (skipn depth key).
    rewrite getRecursive_after_insertIntoLeaf. reflexivity.
  - discriminate.
Qed.

(** X6.  On every trie that calls of [insert] produce, [insert (key, value)]
    returns, and [get (key)] afterwards returns [value] when the insertion
    reached one of the places where it writes the value, and [null] when it
    did not: that is when the key ended inside the suffix of a leaf or the
    run of an extension, where the new branch is given no value. *)
Theorem insert_then_get (this : MerklePatriciaTrie) (key value : string) :
  reachable this ->
  exists this' : MerklePatriciaTrie,
    insert key value this = Ok this'
    /\ get key this'
       = if insertStores key this then Some value else None.
Proof.
  intros Hreach. pose proof (reachable_wellFormed Hreach) as Hwf.
  unfold insert, insertStores, wellFormedTrie in *.
  destruct (root this) as [r|].
  - destruct (insert_then_get_node r Hwf (stringToNibbles key) 0 value)
      as [r' [Hins Hlook]].
    change (skipn 0 (stringToNibbles key)) with (stringToNibbles key) in *.
    rewrite Hins. cbn [bind]. eexists. split; [reflexivity|].
    exact Hlook.
  - eexists. split; [reflexivity|].
    unfold get. cbn [root]. unfold createLeafNode.
    apply (getRecursive_leaf_exact _ value (stringToNibbles key) 0).
Qed.

Lemma insert_then_get_witness :
  reachable twoAccounts
  /\ exists this' : MerklePatriciaTrie,
      insert "a77d397" "0.12ETH" twoAccounts = Ok this'
      /\ get "a77d397" this'
         = if insertStores "a77d397" twoAccounts
           then Some "0.12ETH" else None.
Proof.
  split; [exact twoAccounts_reachable|].
  exact (@insert_then_get twoAccounts "a77d397" "0.12ETH"
           twoAccounts_reachable).
Defined.

(** ** Tries of one and of two keys *)


Lemma getRecursive_root_leaf (prefix : nat) (keyEnd : list nibble)
  (value : string) (keyNibbles : list nibble) :
  getRecursive (LeafNode prefix keyEnd value) keyNibbles 0
  = if arraysEqual keyEnd keyNibbles then Some value else None.
Proof.
  cbn [getRecursive]. cbv zeta. change (skipn 0 keyNibbles) with keyNibbles.
  destruct (length keyNibbles <? length keyEnd); reflexivity.
Qed.

(** X7.  After [insert (key, value)] on a new trie, [get (key)] returns
    [value], and [get] of every key with other nibbles returns [null]. *)
Theorem single_entry_trie (key value : string) :
  exists this : MerklePatriciaTrie,
    insert key value newTrie = Ok this
    /\ get key this = Some value
    /\ (forall other : string,
           stringToNibbles other <> stringToNibbles key ->
           get other this = None).
Proof.
  eexists. split; [reflexivity|]. unfold get. cbn [root].
  unfold createLeafNode. split.
  - rewrite getRecursive_root_leaf, arraysEqual_refl. reflexivity.
  - intros other Hdiff. rewrite getRecursive_root_leaf.
    destruct (arraysEqual (stringToNibbles key) (stringToNibbles other))
      eqn:E; [|reflexivity].
    apply arraysEqual_eq in E. congruence.
Qed.



Lemma findCommonPrefix_next_differs (a b : list nibble) :
  length (findCommonPrefix a b) < length a ->
  length (findCommonPrefix a b) < length b ->
  hd 0 (skipn (length (findCommonPrefix a b)) a)
  <> hd 0 (skipn (length (findCommonPrefix a b)) b).
Proof.
  revert b. induction a as [|x a IH]; intros [|y b]; simpl; try lia.
  destruct (Nat.eqb x y) eqn:E; simpl.
  - intros Ha Hb. apply IH; lia.
  - intros _ _. apply Nat.eqb_neq. exact E.
Qed.

Lemma findCommonPrefix_all (a b : list nibble) :
  length (findCommonPrefix a b) = length a ->
  length (findCommonPrefix a b) = length b -> a = b.
Proof.
  intros Ha Hb.
  pose proof (findCommonPrefix_firstn_l a b) as Hl.
  pose proof (findCommonPrefix_firstn_r a b) as Hr.
  rewrite Ha, firstn_all in Hl. rewrite Hb, firstn_all in Hr. congruence.
Qed.

Lemma getRecursive_old_key_after_insertIntoLeaf (keyEnd : list nibble)
  (leafValue : string) (remainingKey : list nibble) (value : string) :
  keyEnd <> remainingKey ->
  getRecursive (insertIntoLeaf keyEnd leafValue remainingKey value)
    keyEnd 0
  = if length (findCommonPrefix keyEnd remainingKey) <? length keyEnd
    then Some leafValue else None.
Proof.
  intros Hdiff. unfold insertIntoLeaf.
  set (cp := findCommonPrefix keyEnd remainingKey).
  pose proof (findCommonPrefix_length_l keyEnd remainingKey) as Hle.
  fold cp in Hle.
  pose proof (findCommonPrefix_firstn_l keyEnd remainingKey) as Hpre.
  fold cp in Hpre.
  destruct (Nat.eqb (length cp) (length keyEnd)
            && Nat.eqb (length cp) (length remainingKey)) eqn:Hsame.
  { apply andb_true_iff in Hsame. destruct Hsame as [H1 H2].
    apply Nat.eqb_eq in H1, H2.
    elim Hdiff. exact (findCommonPrefix_all keyEnd remainingKey H1 H2). }
  cbv zeta. rewrite getRecursive_wrapped by assumption.
  cbn [Nat.add].
  destruct (length cp <? length keyEnd) eqn:Hold.
  - apply Nat.ltb_lt in Hold.
    assert (Hslot : exists cs,
               (if length cp <? length remainingKey then
                  setChild
                    (setChild (createBranchNode None)
                       (hd 0 (skipn (length cp) keyEnd))
                       (createLeafNode (skipn 1 (skipn (length cp) keyEnd))
                          leafValue))
                    (hd 0 (skipn (length cp) remainingKey))
                    (createLeafNode
                       (skipn 1 (skipn (length cp) remainingKey)) value)
                else
                  setChild (createBranchNode None)
                    (hd 0 (skipn (length cp) keyEnd))
                    (createLeafNode (skipn 1 (skipn (length cp) keyEnd))
                       leafValue)) = BranchNode cs None
               /\ array_get cs (hd 0 (skipn (length cp) keyEnd))
                  = Some (createLeafNode
                            (skipn 1 (skipn (length cp) keyEnd)) leafValue)).
    { destruct (length cp <? length remainingKey) eqn:Hnew;
        eexists; (split; [reflexivity|]).
      - apply Nat.ltb_lt in Hnew.
        rewrite array_get_set_other, array_get_set_same; [reflexivity|].
        intros Heq. symmetry in Heq. revert Heq.
        apply findCommonPrefix_next_differs; assumption.
      - apply array_get_set_same. }
    destruct Hslot as [cs [-> Hget]].
    rewrite getRecursive_branch.
    replace (Nat.eqb (length (skipn (length cp) keyEnd)) 0) with false
      by (symmetry; apply Nat.eqb_neq; rewrite length_skipn; lia).
    rewrite Hget. unfold createLeafNode. rewrite skipn_add.
    apply getRecursive_leaf_exact.
  - apply Nat.ltb_ge in Hold.
    assert (Hslot : exists cs,
               (if length cp <? length remainingKey then
                  setChild (createBranchNode None)
                    (hd 0 (skipn (length cp) remainingKey))
                    (createLeafNode
                       (skipn 1 (skipn (length cp) remainingKey)) value)
                else createBranchNode None) = BranchNode cs None).
    { destruct (length cp <? length remainingKey); eexists; reflexivity. }
    destruct Hslot as [cs ->].
    rewrite getRecursive_branch.
    replace (Nat.eqb (length (skipn (length cp) keyEnd)) 0) with true
      by (symmetry; apply Nat.eqb_eq; rewrite length_skipn; lia).
    reflexivity.
Qed.

(** X9.  On a new trie, after the inserts of two keys with different
    nibbles, each key is retrievable exactly when its nibbles go on after
    the common prefix of the two, that is, when it is not a prefix of the
    other key; a key that is a prefix of the other is answered [null]. *)
Theorem two_key_trie (key1 value1 key2 value2 : string) :
  stringToNibbles key1 <> stringToNibbles key2 ->
  exists this : MerklePatriciaTrie,
    insertAll [(key1, value1); (key2, value2)] newTrie = Ok this
    /\ get key1 this
       = (if length (findCommonPrefix (stringToNibbles key1)
                       (stringToNibbles key2))
             <? length (stringToNibbles key1)
          then Some value1 else None)
    /\ get key2 this
       = (if length (findCommonPrefix (stringToNibbles key1)
                       (stringToNibbles key2))
             <? length (stringToNibbles key2)
          then Some value2 else None).
Proof.
  intros Hdiff. eexists. split; [reflexivity|].
  unfold get. cbn [root]. cbv zeta.
  change (skipn 0 (stringToNibbles key2)) with (stringToNibbles key2).
  split.
  - apply getRecursive_old_key_after_insertIntoLeaf. exact Hdiff.
  - pose proof (getRecursive_after_insertIntoLeaf (stringToNibbles key1)
                  value1 value2 (stringToNibbles key2) 0) as H.
    change (skipn 0 (stringToNibbles key2)) with (stringToNibbles key2) in H.
    rewrite H. cbn [insertStoresValue].
    destruct (Nat.eqb _ (length (stringToNibbles key1))
              && Nat.eqb _ (length (stringToNibbles key2))) eqn:Hsame;
      [|reflexivity].
    apply andb_true_iff in Hsame. destruct Hsame as [H1 H2].
    apply Nat.eqb_eq in H1, H2.
    elim Hdiff. exact (findCommonPrefix_all _ _ H1 H2).
Qed.

Lemma two_key_trie_witness :
  stringToNibbles "a71355" <> stringToNibbles "a77d337"
  /\ exists this : MerklePatriciaTrie,
      insertAll [("a71355", "45.0ETH"); ("a77d337", "1.00WEI")] newTrie
      = Ok this
      /\ get "a71355" this
         = (if length (findCommonPrefix (stringToNibbles "a71355")
                         (stringToNibbles "a77d337"))
               <? length (stringToNibbles "a71355")
            then Some "45.0ETH" else None)
      /\ get "a77d337" this
         = (if length (findCommonPrefix (stringToNibbles "a71355")
                         (stringToNibbles "a77d337"))
               <? length (stringToNibbles "a77d337")
            then Some "1.00WEI" else None).
Proof.
  assert (H : stringToNibbles "a71355" <> stringToNibbles "a77d337")
    by (vm_compute; discriminate).
  split; [exact H|].
  exact (@two_key_trie "a71355" "45.0ETH" "a77d337" "1.00WEI" H).
Defined.

(** ** Shape of the tries that insertion builds *)

Lemma inRange_Forall (nibbles : list nibble) :
  Forall (fun n => n < 16) nibbles -> inRange nibbles = true.
Proof.
  intros H. apply forallb_forall. intros n Hin.
  rewrite Forall_forall in H. apply Nat.ltb_lt. auto.
Qed.

Lemma inRange_skipn (n : nat) (nibbles : list nibble) :
  inRange nibbles = true -> inRange (skipn n nibbles) = true.
Proof.
  unfold inRange. rewrite !forallb_forall. intros H x Hin. apply H.
  rewrite <- (firstn_skipn n nibbles). apply in_or_app. right. exact Hin.
Qed.

Lemma inRange_firstn (n : nat) (nibbles : list nibble) :
  inRange nibbles = true -> inRange (firstn n nibbles) = true.
Proof.
  unfold inRange. rewrite !forallb_forall. intros H x Hin. apply H.
  rewrite <- (firstn_skipn n nibbles). apply in_or_app. left. exact Hin.
Qed.

Lemma inRange_findCommonPrefix (a b : list nibble) :
  inRange a = true -> inRange (findCommonPrefix a b) = true.
Proof.
  intros H. rewrite (findCommonPrefix_firstn_l a b).
  apply inRange_firstn. exact H.
Qed.

Lemma inRange_hd (nibbles : list nibble) :
  inRange nibbles = true -> hd 0 nibbles < 16.
Proof.
  destruct nibbles as [|x rest]; simpl; [lia|].
  intros H. apply andb_true_iff in H. destruct H as [H _].
  apply Nat.ltb_lt. exact H.
Qed.

Lemma array_set_length {A : Type} (arr : list (option A)) (i : nat)
  (x : A) :
  i < length arr -> length (array_set arr i x) = length arr.
Proof.
  revert arr. induction i as [|j IH]; intros [|c rest] H; simpl in *;
    try lia.
  rewrite IH by lia. reflexivity.
Qed.

Lemma existsb_array_set (children : list (option TrieNode)) (i : nat)
  (x : TrieNode) :
  existsb isPresent (array_set children i x) = true.
Proof.
  revert children. induction i as [|j IH]; intros [|c rest]; simpl;
    try reflexivity.
  - apply IH.
  - rewrite IH. apply orb_true_r.
Qed.

Lemma slots_repeat : slots (repeat None 16).
Proof. split; reflexivity. Qed.

Lemma slots_array_set (children : list (option TrieNode)) (i : nat)
  (x : TrieNode) :
  slots children -> i < 16 -> structured x = true ->
  slots (array_set children i x).
Proof.
  intros [Hlen Hall] Hi Hx. split.
  - rewrite array_set_length; lia.
  - apply forallb_forall. intros c Hin.
    apply array_set_In in Hin. destruct Hin as [->|[->|Hin]]; simpl; auto.
    rewrite forallb_forall in Hall. auto.
Qed.

Lemma structured_branch (children : list (option TrieNode))
  (value : option string) :
  structured (BranchNode children value) = true
  <-> slots children /\ existsb isPresent children = true.
Proof.
  unfold slots. cbn [structured].
  change (forallb _ children) with (forallb childStructured children).
  rewrite !andb_true_iff, Nat.eqb_eq. tauto.
Qed.

Lemma structured_createLeafNode (keyEnd : list nibble) (value : string) :
  inRange keyEnd = true -> structured (createLeafNode keyEnd value) = true.
Proof.
  intros H. unfold createLeafNode. cbn [structured].
  fold (inRange keyEnd). rewrite H, Nat.eqb_refl. reflexivity.
Qed.

Lemma structured_createExtensionNode (run : list nibble)
  (next : TrieNode) :
  0 < length run -> inRange run = true -> isBranch next = true ->
  structured next = true ->
  structured (createExtensionNode run next) = true.
Proof.
  intros Hlen Hrange Hbranch Hnext. unfold createExtensionNode.
  cbn [structured]. fold (inRange run).
  rewrite Hrange, Nat.eqb_refl, Hbranch, Hnext.
  destruct (length run); [lia|reflexivity].
Qed.

Lemma structured_wrap (commonPrefix : list nibble) (branch : TrieNode) :
  inRange commonPrefix = true -> isBranch branch = true ->
  structured branch = true ->
  structured (if 0 <? length commonPrefix
              then createExtensionNode commonPrefix branch else branch)
  = true.
Proof.
  intros Hrange Hbranch Hs. destruct (0 <? length commonPrefix) eqn:E;
    [|exact Hs].
  apply Nat.ltb_lt in E. apply structured_createExtensionNode; assumption.
Qed.

Lemma structured_insertIntoLeaf (keyEnd : list nibble)
  (leafValue : string) (remainingKey : list nibble) (value : string) :
  inRange keyEnd = true -> inRange remainingKey = true ->
  structured (insertIntoLeaf keyEnd leafValue remainingKey value) = true.
Proof.
  intros HS HR. unfold insertIntoLeaf.
  set (cp := findCommonPrefix keyEnd remainingKey).
  pose proof (findCommonPrefix_length_l keyEnd remainingKey) as Hl.
  pose proof (findCommonPrefix_length_r keyEnd remainingKey) as Hr.
  fold cp in Hl, Hr.
  destruct (Nat.eqb (length cp) (length keyEnd)
            && Nat.eqb (length cp) (length remainingKey)) eqn:Hsame.
  { apply structured_createLeafNode. exact HR. }
  cbv zeta.
  assert (Hone : length cp < length keyEnd
                 \/ length cp < length remainingKey).
  { apply andb_false_iff in Hsame.
    destruct Hsame as [H|H]; apply Nat.eqb_neq in H; lia. }
  assert (Hold : structured
                   (createLeafNode (skipn 1 (skipn (length cp) keyEnd))
                      leafValue) = true)
    by (apply structured_createLeafNode; do 2 apply inRange_skipn;
        exact HS).
  assert (Hnew : structured
                   (createLeafNode
                      (skipn 1 (skipn (length cp) remainingKey)) value)
                 = true)
    by (apply structured_createLeafNode; do 2 apply inRange_skipn;
        exact HR).
  assert (Hi : hd 0 (skipn (length cp) keyEnd) < 16)
    by (apply inRange_hd, inRange_skipn; exact HS).
  assert (Hj : hd 0 (skipn (length cp) remainingKey) < 16)
    by (apply inRange_hd, inRange_skipn; exact HR).
  apply structured_wrap.
  - apply inRange_findCommonPrefix. exact HS.
  - destruct (length cp <? length keyEnd),
      (length cp <? length remainingKey); reflexivity.
  - destruct (length cp <? length keyEnd) eqn:E1,
      (length cp <? length remainingKey) eqn:E2;
      cbn [setChild createBranchNode]; apply structured_branch.
    + split; [|apply existsb_array_set].
      apply slots_array_set; auto. apply slots_array_set; auto.
      apply slots_repeat.
    + split; [|apply existsb_array_set].
      apply slots_array_set; auto. apply slots_repeat.
    + split; [|apply existsb_array_set].
      apply slots_array_set; auto. apply slots_repeat.
    + apply Nat.ltb_ge in E1, E2. lia.
Qed.

Lemma insertRecursive_structured (node : TrieNode) :
  structured node = true ->
  forall (R : list nibble) (value : string),
    inRange R = true ->
    exists node',
      insertRecursive node R value 0 = Ok node'
      /\ structured node' = true
      /\ (isBranch node = true -> isBranch node' = true).
Proof.
  induction node as [children bv IH|p run next IH|p keyEnd lv|]
    using TrieNode_ind; intros Hs R value HR.
  - (* branch *)
    rewrite insertRecursive_branch.
    apply structured_branch in Hs. destruct Hs as [Hslots Hex].
    destruct (Nat.eqb (length R) 0).
    { eexists. split; [reflexivity|]. split; [|reflexivity].
      apply structured_branch. split; assumption. }
    pose proof (inRange_hd R HR) as Hidx.
    destruct (array_get children (hd 0 R)) as [c|] eqn:Hget.
    + pose proof (array_get_In _ _ Hget) as Hin.
      rewrite Forall_forall in IH. specialize (IH _ Hin). simpl in IH.
      assert (Hc : structured c = true).
      { destruct Hslots as [_ Hall]. rewrite forallb_forall in Hall.
        apply (Hall _ Hin). }
      destruct (IH Hc (skipn 1 R) value (inRange_skipn 1 R HR))
        as [c' [Hins [Hc' _]]].
      rewrite Hins. cbn [bind]. eexists. split; [reflexivity|].
      split; [|reflexivity]. apply structured_branch.
      split; [|apply existsb_array_set].
      apply slots_array_set; assumption.
    + eexists. split; [reflexivity|]. split; [|reflexivity].
      apply structured_branch. split; [|apply existsb_array_set].
      apply slots_array_set; try assumption.
      apply structured_createLeafNode. exact HR.
  - (* extension *)
    cbn [structured] in Hs. fold (inRange run) in Hs.
    rewrite !andb_true_iff in Hs.
    destruct Hs as [[[[Hlen Hrun] _] Hbranch] Hnext].
    apply negb_true_iff, Nat.eqb_neq in Hlen.
    rewrite insertRecursive_extension. unfold insertIntoExtension.
    set (cp := findCommonPrefix run R).
    pose proof (findCommonPrefix_length_l run R) as Hl. fold cp in Hl.
    destruct (Nat.eqb (length cp) (length run)) eqn:Hfull.
    + destruct (IH Hnext (skipn (length cp) R) value
                  (inRange_skipn (length cp) R HR))
        as [n' [Hins [Hn' Hb]]].
      rewrite Hins. cbn [bind]. eexists. split; [reflexivity|].
      split; [|discriminate].
      apply structured_createExtensionNode; auto. lia.
    + apply Nat.eqb_neq in Hfull. cbv zeta.
      replace (0 <? length (skipn (length cp) run)) with true
        by (symmetry; apply Nat.ltb_lt; rewrite length_skipn; lia).
      assert (Hi : hd 0 (skipn (length cp) run) < 16)
        by (apply inRange_hd, inRange_skipn; exact Hrun).
      assert (Hj : hd 0 (skipn (length cp) R) < 16)
        by (apply inRange_hd, inRange_skipn; exact HR).
      assert (Hold : exists cs,
                 (if 1 <? length (skipn (length cp) run) then
                    setChild (createBranchNode None)
                      (hd 0 (skipn (length cp) run))
                      (createExtensionNode
                         (skipn 1 (skipn (length cp) run)) next)
                  else setChild (createBranchNode None)
                         (hd 0 (skipn (length cp) run)) next)
                 = BranchNode cs None
                 /\ slots cs /\ existsb isPresent cs = true).
      { destruct (1 <? length (skipn (length cp) run)) eqn:E1;
          eexists; (split; [reflexivity|]);
          (split; [|apply existsb_array_set]);
          apply slots_array_set; auto using slots_repeat.
        apply Nat.ltb_lt in E1.
        apply structured_createExtensionNode; auto.
        - rewrite length_skipn. lia.
        - do 2 apply inRange_skipn. exact Hrun. }
      destruct Hold as [cs [-> [Hslots Hex]]].
      assert (Hwrap : forall b,
                 (if 0 <? length cp
                  then Ok (createExtensionNode cp b) else Ok b)
                 = Ok (if 0 <? length cp
                       then createExtensionNode cp b else b))
        by (intros b; destruct (0 <? length cp); reflexivity).
      rewrite Hwrap. eexists. split; [reflexivity|].
      split; [|discriminate].
      apply structured_wrap.
      * apply inRange_findCommonPrefix. exact Hrun.
      * destruct (0 <? length (skipn (length cp) R)); reflexivity.
      * destruct (0 <? length (skipn (length cp) R)); cbn [setChild];
          apply structured_branch.
        -- split; [|apply existsb_array_set].
           apply slots_array_set; auto.
           apply structured_createLeafNode, inRange_skipn. exact HR.
        -- split; assumption.
  - (* leaf *)
    cbn [structured] in Hs. fold (inRange keyEnd) in Hs.
    apply andb_true_iff in Hs. destruct Hs as [HS _].
    eexists. split; [reflexivity|]. split; [|discriminate].
    change (skipn 0 R) with R.
    apply structured_insertIntoLeaf; assumption.
  - discriminate.
Qed.

(** X10.  Every trie that calls of [insert] produce is structured: each
    branch has exactly 16 slots and at least one child, each extension has a
    non-empty run and a branch as its next node, each leaf and extension
    carries the tag that [encodePrefix] gives its run, and every stored
    nibble is below 16. *)
Theorem reachable_tries_are_structured (this : MerklePatriciaTrie) :
  reachable this -> structuredTrie this = true.
Proof.
  induction 1 as [|key value this this' Hreach IH Hins]; [reflexivity|].
  unfold insert in Hins. unfold structuredTrie in *.
  pose proof (inRange_Forall (stringToNibbles_Forall key)) as Hkey.
  destruct (root this) as [r|].
  - destruct (insertRecursive_structured r IH (stringToNibbles key) value
                Hkey) as [r' [Hr' [Hs _]]].
    rewrite Hr' in Hins. cbn [bind] in Hins. inversion Hins; subst.
    exact Hs.
  - inversion Hins; subst. cbn [root].
    apply structured_createLeafNode. exact Hkey.
Qed.

Lemma reachable_tries_are_structured_witness :
  reachable twoAccounts /\ structuredTrie twoAccounts = true.
Proof.
  split; [exact twoAccounts_reachable|].
  exact (@reachable_tries_are_structured twoAccounts
           twoAccounts_reachable).
Defined.

(** ** Content hashed for a leaf *)

Lemma string_append_assoc (a b c : string) :
  ((a ++ b) ++ c = a ++ (b ++ c))%string.
Proof. induction a as [|x a IH]; simpl; congruence. Qed.

Lemma joinNibbles_app (a b : list nibble) :
  joinNibbles (a ++ b) = (joinNibbles a ++ joinNibbles b)%string.
Proof.
  unfold joinNibbles. induction a as [|x a IH]; [reflexivity|].
  cbn [map app]. rewrite !concat_empty_cons, IH.
  symmetry. apply string_append_assoc.
Qed.

(** X11.  The digest of a leaf does not tell where the suffix ends and the
    value begins: moving an even number of trailing nibbles of the suffix
    to the front of the value, as their digits, leaves the digest
    unchanged. *)
Theorem leaf_digest_joins_suffix_and_value (front back : list nibble)
  (value : string) :
  length back mod 2 = 0 ->
  calculateNodeHash (createLeafNode (front ++ back) value)
  = calculateNodeHash
      (createLeafNode front (joinNibbles back ++ value)%string).
Proof.
  intros Heven. unfold createLeafNode, encodePrefix. cbn [fst].
  cbn [calculateNodeHash]. f_equal.
  rewrite length_app, Nat.Div0.add_mod, Heven, Nat.add_0_r,
    Nat.Div0.mod_mod.
  f_equal. rewrite joinNibbles_app. apply string_append_assoc.
Qed.

Lemma leaf_digest_joins_suffix_and_value_witness :
  length [1; 2] mod 2 = 0
  /\ calculateNodeHash (createLeafNode ([] ++ [1; 2]) "x")
     = calculateNodeHash
         (createLeafNode [] (joinNibbles [1; 2] ++ "x")%string).
Proof.
  split; [reflexivity|].
  apply (@leaf_digest_joins_suffix_and_value [] [1; 2] "x"). reflexivity.
Defined.

(** ** Printing *)







Example readme_print :
  printTrie twoAccounts
  = ["Extension Node:"; "  Prefix: 0"; "  Shared Nibbles: a7";
     "  Next Node:"; "  Branch Node:"; "    [1]:"; "    Leaf Node:";
     "      Prefix: 3"; "      Key End: 355"; "      Value: 45.0ETH";
     "    [7]:"; "    Leaf Node:"; "      Prefix: 2";
     "      Key End: d337"; "      Value: 1.00WEI"].
Proof. vm_compute. reflexivity. Qed.

(** ** Lookup below a branch *)

(** X13.  When insertion puts a new leaf into an empty slot of a branch,
    the leaf stores the remaining key with its selecting nibble, and lookup
    then finds the value under the key and also under the key in which the
    selecting nibble is written twice, a key that was not inserted. *)
Theorem lookup_finds_key_with_doubled_nibble
  (children : list (option TrieNode)) (branchValue : option string)
  (consumed remainingKey : list nibble) (value : string) :
  0 < length remainingKey ->
  array_get children (hd 0 remainingKey) = None ->
  exists node' : TrieNode,
    insertRecursive (BranchNode children branchValue)
      (consumed ++ remainingKey) value (length consumed) = Ok node'
    /\ getRecursive node' (consumed ++ remainingKey) (length consumed)
       = Some value
    /\ getRecursive node'
         (consumed ++ hd 0 remainingKey :: remainingKey) (length consumed)
       = Some value.
Proof.
  intros Hlen Hslot.
  assert (Hskip : forall l, skipn (length consumed) (consumed ++ l) = l).
  { intros l. rewrite skipn_app, skipn_all, Nat.sub_diag. reflexivity. }
  assert (HR : Nat.eqb (length remainingKey) 0 = false)
    by (apply Nat.eqb_neq; lia).
  exists (BranchNode
            (array_set children (hd 0 remainingKey)
               (createLeafNode remainingKey value)) branchValue).
  split; [|split].
  - cbn [insertRecursive]. cbv zeta. rewrite Hskip.
    unfold insertIntoBranch. rewrite HR, at_index_array_get, Hslot.
    reflexivity.
  - rewrite getRecursive_branch, Hskip, HR, array_get_set_same.
    unfold createLeafNode.
    pose proof (getRecursive_leaf_rebuilt
                  (fst (encodePrefix remainingKey true)) value
                  (consumed ++ remainingKey) (length consumed)) as H.
    rewrite Hskip in H. exact (H Hlen).
  - rewrite getRecursive_branch, Hskip. cbn [length hd Nat.eqb].
    rewrite array_get_set_same. unfold createLeafNode.
    pose proof (getRecursive_leaf_exact
                  (fst (encodePrefix remainingKey true)) value
                  (consumed ++ hd 0 remainingKey :: remainingKey)
                  (length consumed + 1)) as H.
    rewrite <- skipn_add, Hskip in H. exact H.
Qed.

Lemma lookup_finds_key_with_doubled_nibble_witness :
  0 < length [5; 6]
  /\ array_get
       (array_set (array_set (repeat None 16) 1 (LeafNode 3 [2] "a"))
          3 (LeafNode 3 [4] "b")) (hd 0 [5; 6]) = None
  /\ exists node' : TrieNode,
      insertRecursive
        (BranchNode
           (array_set (array_set (repeat None 16) 1 (LeafNode 3 [2] "a"))
              3 (LeafNode 3 [4] "b")) None)
        ([] ++ [5; 6]) "c" (length (@nil nibble)) = Ok node'
      /\ getRecursive node' ([] ++ [5; 6]) (length (@nil nibble))
         = Some "c"
      /\ getRecursive node' ([] ++ hd 0 [5; 6] :: [5; 6])
           (length (@nil nibble))
         = Some "c".
Proof.
  split; [simpl; lia|]. split; [reflexivity|].
  apply (@lookup_finds_key_with_doubled_nibble
           (array_set (array_set (repeat None 16) 1 (LeafNode 3 [2] "a"))
              3 (LeafNode 3 [4] "b")) None [] [5; 6] "c").
  - simpl; lia.
  - reflexivity.
Defined.

(** X14.  Insertion into a trie whose root is a branch leaves the lookup of
    every key of another slot as it was: when the inserted key is empty or
    its first nibble is not the first nibble of the other key, [get] of the
    other key returns after the insertion what it returned before. *)
Theorem insert_keeps_other_slots (this this' : MerklePatriciaTrie)
  (children : list (option TrieNode)) (branchValue : option string)
  (key value other : string) :
  root this = Some (BranchNode children branchValue) ->
  insert key value this = Ok this' ->
  0 < length (stringToNibbles other) ->
  stringToNibbles key = []
  \/ hd 0 (stringToNibbles key) <> hd 0 (stringToNibbles other) ->
  get other this' = get other this.
Proof.
  intros Hroot Hins Hother Hdiff.
  unfold insert in Hins. unfold get. rewrite Hroot in *.
  rewrite insertRecursive_branch in Hins.
  assert (Hnonempty : Nat.eqb (length (skipn 0 (stringToNibbles other))) 0
                      = false)
    by (apply Nat.eqb_neq; simpl; lia).
  destruct (Nat.eqb (length (stringToNibbles key)) 0) eqn:Hkey.
  - cbn [bind] in Hins. inversion Hins; subst. cbn [root].
    rewrite !getRecursive_branch, Hnonempty. reflexivity.
  - destruct Hdiff as [Hempty|Hdiff];
      [rewrite Hempty in Hkey; discriminate|].
    assert (Hset : forall x,
               array_get (array_set children
                            (hd 0 (stringToNibbles key)) x)
                 (hd 0 (skipn 0 (stringToNibbles other)))
               = array_get children
                   (hd 0 (skipn 0 (stringToNibbles other))))
      by (intros x; apply array_get_set_other; exact Hdiff).
    destruct (array_get children (hd 0 (stringToNibbles key))) as [c|].
    + destruct (insertRecursive c (skipn 1 (stringToNibbles key)) value 0)
        as [c'|msg]; cbn [bind] in Hins; [|discriminate].
      inversion Hins; subst. cbn [root].
      rewrite !getRecursive_branch, Hnonempty, Hset. reflexivity.
    + cbn [bind] in Hins. inversion Hins; subst. cbn [root].
      rewrite !getRecursive_branch, Hnonempty, Hset. reflexivity.
Qed.

Lemma insert_keeps_other_slots_witness :
  root beforeOverwrite
  = Some (BranchNode
            (array_set
               (array_set
                  (array_set (repeat None 16) 1 (LeafNode 3 [2] "a"))
                  3 (LeafNode 3 [4] "b"))
               5 (LeafNode 2 [5; 5] "v1")) None)
  /\ insert "55" "v2" beforeOverwrite = Ok afterOverwrite
  /\ 0 < length (stringToNibbles "34")
  /\ (stringToNibbles "55" = []
      \/ hd 0 (stringToNibbles "55") <> hd 0 (stringToNibbles "34"))
  /\ get "34" afterOverwrite = get "34" beforeOverwrite.
Proof.
  assert (Hdiff : stringToNibbles "55" = []
                  \/ hd 0 (stringToNibbles "55")
                     <> hd 0 (stringToNibbles "34"))
    by (right; vm_compute; discriminate).
  split; [reflexivity|]. split; [reflexivity|].
  split; [vm_compute; lia|]. split; [exact Hdiff|].
  apply (@insert_keeps_other_slots beforeOverwrite afterOverwrite _ _
           "55" "v2" "34" eq_refl eq_refl); [vm_compute; lia|exact Hdiff].
Defined.

(** The lookups of the example at the end of src/index.ts. *)
Example demo_lookups :
  exists this : MerklePatriciaTrie,
    insertAll [("a71355", "45.0ETH"); ("a77d337", "1.00WEI");
               ("a7f9365", "1.1ETH"); ("a77d397", "0.12ETH")] newTrie
    = Ok this
    /\ get "a71355" this = Some "45.0ETH"
    /\ get "a77d337" this = Some "1.00WEI"
    /\ get "a7f9365" this = Some "1.1ETH"
    /\ get "a77d397" this = Some "0.12ETH"
    /\ get "xyz" this = None.
Proof. eexists. repeat split. Qed.
